(** * Fingerprinting and matching engine of [fingerprint.py]

    A shallow embedding of the hasher ([_generate_hashes]) and of the
    index and matcher ([FingerprintDB]) together with the properties the
    specification states about them.

    The spectrogram and peak-picking stage ([wavfile.read], [stft],
    [maximum_filter], ...) is floating-point library code; it enters the
    development as a function from a file to its constellation of peaks
    that may raise. *)

From Stdlib Require Import ZArith Lia List Permutation Sorted.
From stdpp Require Import base option list sorting gmap strings pretty.

Local Open Scope Z_scope.

(** ** 64-bit integers

    The entries of a peak array are [np.int64] values (the indices returned
    by [np.where]); arithmetic on them wraps around modulo [2^64]. *)

Module Int64.

Definition min_int : Z := - 2 ^ 63.
Definition max_int : Z := 2 ^ 63 - 1.

Definition in_range (z : Z) : Prop := min_int <= z <= max_int.

(** Two's complement reduction of an unbounded integer. *)
Definition wrap (z : Z) : Z := (z + 2 ^ 63) mod 2 ^ 64 - 2 ^ 63.

(** [a - b] on [np.int64]. *)
Definition sub (a b : Z) : Z := wrap (a - b).

End Int64.

(** ** Peaks and tokens *)

(** A row [(time_index, frequency_index)] of the array returned by
    [_compute_constellation_map]. *)
Record Peak := mkPeak { pk_time : Z; pk_freq : Z }.

Global Instance Peak_eq_dec : EqDecision Peak.
Proof. solve_decision. Defined.

(** [(anchor_freq & 0x3FF) << 22 | (target_freq & 0x3FF) << 12 | (dt & 0xFFF)];
    in Python the shifts bind tighter than [&], which binds tighter than
    [|].  Every intermediate value is below [2^32], so the 64-bit
    operations do not wrap. *)
Definition pack_hash (anchor_freq target_freq dt : Z) : Z :=
  Z.lor (Z.lor (Z.shiftl (Z.land anchor_freq 0x3FF) 22)
               (Z.shiftl (Z.land target_freq 0x3FF) 12))
        (Z.land dt 0xFFF).

(** An emitted pair [(hash_val, anchor_time)]. *)
Abbreviation Hash := (Z * Z)%type.

(** ** The hasher: [_generate_hashes] *)

Section Hasher.

(** [peaks[np.argsort(peaks[:, 0])]]: the rows reordered by ascending time
    index.  numpy's default sort is not stable, so the order of rows that
    share a time index is left to this function. *)
Variable sort_by_time : list Peak → list Peak.

Variable fan_value : nat.
Variable min_time_delta max_time_delta : Z.

(** The body of [for j in range(1, fan_value + 1)] for the anchor at
    index [i]; [js] is what remains of the range. *)
Fixpoint fan_loop (peaks : list Peak) (i : nat) (anchor : Peak)
    (js : list nat) : list Hash :=
  match js with
  | [] => []
  | j :: js' =>
      match peaks !! (i + j)%nat with
      | None => []                                        (* break *)
      | Some target =>
          let dt := Int64.sub (pk_time target) (pk_time anchor) in
          if dt <? min_time_delta then
            fan_loop peaks i anchor js'                   (* continue *)
          else if dt >? max_time_delta then
            []                                            (* break *)
          else
            (pack_hash (pk_freq anchor) (pk_freq target) dt, pk_time anchor)
              :: fan_loop peaks i anchor js'
      end
  end.

(** The body of [for i in range(len(peaks))]; [is_] is what remains of
    the range. *)
Fixpoint anchor_loop (peaks : list Peak) (is_ : list nat) : list Hash :=
  match is_ with
  | [] => []
  | i :: is' =>
      match peaks !! i with
      | None => anchor_loop peaks is'
      | Some anchor =>
          fan_loop peaks i anchor (seq 1 fan_value) ++ anchor_loop peaks is'
      end
  end.

Definition generate_hashes_with (peaks : list Peak) : list Hash :=
  let peaks := sort_by_time peaks in
  anchor_loop peaks (seq 0 (length peaks)).

End Hasher.

(** The keyword defaults of [_generate_hashes]. *)
Definition default_fan_value : nat := 10.
Definition default_min_time_delta : Z := 0.
Definition default_max_time_delta : Z := 200.

Definition generate_hashes (sort_by_time : list Peak → list Peak)
    (peaks : list Peak) : list Hash :=
  generate_hashes_with sort_by_time default_fan_value
    default_min_time_delta default_max_time_delta peaks.

(** What the hasher relies on from [np.argsort]: the result holds the same
    rows, in ascending order of time index. *)
Definition time_le (p q : Peak) : Prop := pk_time p <= pk_time q.

Record sorts_by_time (sort : list Peak → list Peak) : Prop := {
  sort_perm : ∀ l, sort l ≡ₚ l;
  sort_sorted : ∀ l, Sorted time_le (sort l)
}.

(** A stable sort is one such function (and is what numpy runs on short
    arrays). *)
Global Instance time_le_dec p q : Decision (time_le p q).
Proof. unfold time_le. apply _. Defined.

Definition stable_sort_by_time : list Peak → list Peak := merge_sort time_le.

(** A row of an [int64] array. *)
Definition int64_peak (p : Peak) : Prop :=
  Int64.in_range (pk_time p) ∧ Int64.in_range (pk_freq p).

(** [anchor] and [target] are rows [i] and [i + j] of the sorted array, for
    some [j] in [range(1, fan_value + 1)]. *)
Definition paired_in (peaks : list Peak) (fan_value : nat)
    (anchor target : Peak) : Prop :=
  ∃ i j : nat, (1 ≤ j ≤ fan_value)%nat ∧
    peaks !! i = Some anchor ∧ peaks !! (i + j)%nat = Some target.

(** ** Python dictionaries that are iterated

    [votes] and its inner histograms are walked with [.items()] and
    [.values()], so the order of first insertion is part of their value: an
    association list with distinct keys, a new key going to the end and an
    existing key keeping its place. *)

Abbreviation pydict V := (list (Z * V)).

Fixpoint dict_get {V} (k : Z) (d : pydict V) : option V :=
  match d with
  | [] => None
  | (k', v) :: d' => if decide (k = k') then Some v else dict_get k d'
  end.

(** [d[k] = v] *)
Fixpoint dict_set {V} (k : Z) (v : V) (d : pydict V) : pydict V :=
  match d with
  | [] => [(k, v)]
  | (k', v') :: d' =>
      if decide (k = k') then (k', v) :: d' else (k', v') :: dict_set k v d'
  end.

Definition dict_keys {V} (d : pydict V) : list Z := d.*1.
Definition dict_values {V} (d : pydict V) : list V := d.*2.

(** [max(xs)], which raises [ValueError] on an empty sequence. *)
Definition py_max (xs : list Z) : option Z :=
  match xs with
  | [] => None
  | x :: xs' => Some (foldl Z.max x xs')
  end.

(** ** The index and the matcher: [FingerprintDB] *)

(** The result of a call that may raise. *)
Inductive outcome (A : Type) : Type :=
  | Returned (a : A)
  | Raised.
Arguments Returned {A} a.
Arguments Raised {A}.

(** A posting [(track_id, offset)]. *)
Abbreviation Posting := (Z * Z)%type.

Record FingerprintDB (Meta : Type) : Type := mkDB {
  hash_table : gmap Z (list Posting);
  metadata : gmap Z Meta;
  _next_track_id : Z
}.
Arguments mkDB {Meta} _ _ _.
Arguments hash_table {Meta} _.
Arguments metadata {Meta} _.
Arguments _next_track_id {Meta} _.

(** [FingerprintDB()] *)
Definition new_db {Meta} : FingerprintDB Meta := mkDB ∅ ∅ 0.

(** [self.hash_table.setdefault(h, []).append((track_id, offset))] *)
Definition insert_posting (table : gmap Z (list Posting)) (track_id : Z)
    (h : Hash) : gmap Z (list Posting) :=
  <[h.1 := default [] (table !! h.1) ++ [(track_id, h.2)]]> table.

(** [for h, offset in hashes: ...] of [add_track]. *)
Definition insert_hashes (table : gmap Z (list Posting)) (track_id : Z)
    (hashes : list Hash) : gmap Z (list Posting) :=
  foldl (λ table h, insert_posting table track_id h) table hashes.

(** One pass of the innermost loop of [recognise]. *)
Definition vote (votes : pydict (pydict Z)) (track_id dt : Z)
    : pydict (pydict Z) :=
  (* votes.setdefault(track_id, {}).setdefault(dt, 0) *)
  let offsets := default [] (dict_get track_id votes) in
  let offsets :=
    match dict_get dt offsets with
    | Some _ => offsets
    | None => dict_set dt 0 offsets
    end in
  (* votes[track_id][dt] += 1 *)
  let n := default 0 (dict_get dt offsets) in
  dict_set track_id (dict_set dt (n + 1) offsets) votes.

(** [for track_id, db_offset in matches: ...] *)
Definition tally_matches (votes : pydict (pydict Z)) (offset : Z)
    (matches : list Posting) : pydict (pydict Z) :=
  foldl (λ votes m, vote votes m.1 (Int64.sub m.2 offset)) votes matches.

(** The body of [for h, offset in hashes] in [recognise]; [if not matches]
    covers both a missing key and an empty list. *)
Definition tally_hash (table : gmap Z (list Posting))
    (votes : pydict (pydict Z)) (h : Hash) : pydict (pydict Z) :=
  match table !! h.1 with
  | None => votes
  | Some [] => votes
  | Some matches => tally_matches votes h.2 matches
  end.

Definition tally (table : gmap Z (list Posting)) (hashes : list Hash)
    : pydict (pydict Z) :=
  foldl (tally_hash table) [] hashes.

(** The body of [for track_id, offsets in votes.items()], on the pair
    [(best_track, best_score)]. *)
Definition best_step (best : option Z * Z) (item : Z * pydict Z)
    : option (option Z * Z) :=
  score ← py_max (dict_values item.2);
  Some (if score >? best.2 then (Some item.1, score) else best).

Fixpoint best_loop (items : pydict (pydict Z)) (best : option Z * Z)
    : option (option Z * Z) :=
  match items with
  | [] => Some best
  | item :: items' => best' ← best_step best item; best_loop items' best'
  end.

(** The matcher on a token stream: the part of [recognise] after the
    hashes are computed. *)
Definition match_hashes (table : gmap Z (list Posting)) (hashes : list Hash)
    : option (option Z * Z) :=
  best_loop (tally table hashes) (None, 0).

Section Engine.

Context {File Meta : Type}.

(** [wavfile.read], the down-mix and scaling, and
    [_compute_constellation_map]: [None] when one of them raises. *)
Variable read_constellation : File → option (list Peak).
Variable sort_by_time : list Peak → list Peak.
(** [{"title": os.path.basename(filepath)}] *)
Variable default_metadata : File → Meta.

Definition fingerprint_file (filepath : File) : option (list Hash) :=
  generate_hashes sort_by_time <$> read_constellation filepath.

(** [add_track]: the outcome and the state it leaves.  The counter is
    advanced before the file is read, so it stays advanced when the
    read raises. *)
Definition add_track (db : FingerprintDB Meta) (filepath : File)
    (meta : option Meta) : outcome Z * FingerprintDB Meta :=
  let track_id := _next_track_id db in
  let next := track_id + 1 in
  match fingerprint_file filepath with
  | None => (Raised, mkDB (hash_table db) (metadata db) next)
  | Some hashes =>
      let table := insert_hashes (hash_table db) track_id hashes in
      let meta := default (default_metadata filepath) meta in
      (Returned track_id, mkDB table (<[track_id := meta]> (metadata db)) next)
  end.

Definition recognise (db : FingerprintDB Meta) (filepath : File)
    : outcome (option Z * Z) :=
  match fingerprint_file filepath with
  | None => Raised
  | Some hashes =>
      match match_hashes (hash_table db) hashes with
      | Some result => Returned result
      | None => Raised
      end
  end.

(** A run of [add_track] calls, oldest first. *)
Fixpoint add_tracks (db : FingerprintDB Meta)
    (calls : list (File * option Meta))
    : list (outcome Z) * FingerprintDB Meta :=
  match calls with
  | [] => ([], db)
  | (filepath, meta) :: calls' =>
      let '(out, db') := add_track db filepath meta in
      let '(outs, db'') := add_tracks db' calls' in
      (out :: outs, db'')
  end.

(** The states an index goes through, from [FingerprintDB()] on. *)
Inductive reachable : FingerprintDB Meta → Prop :=
  | reachable_new : reachable new_db
  | reachable_add db filepath meta :
      reachable db → reachable (add_track db filepath meta).2.

End Engine.

(** ** Persistence: [save] and [load] *)

(** The dictionary [{'hash_table': ..., 'metadata': ..., '_next_track_id': ...}]
    handed to [pickle.dump]. *)
Record Pickled (Meta : Type) : Type := mkPickled {
  data_hash_table : gmap Z (list Posting);
  data_metadata : gmap Z Meta;
  data_next_track_id : Z
}.
Arguments mkPickled {Meta} _ _ _.
Arguments data_hash_table {Meta} _.
Arguments data_metadata {Meta} _.
Arguments data_next_track_id {Meta} _.

Section Persistence.

Context {Meta Bytes : Type}.

(** [pickle.dump] and [pickle.load] on the contents of a file. *)
Variable pickle_dumps : Pickled Meta → Bytes.
Variable pickle_loads : Bytes → option (Pickled Meta).

(** The files on disk, by name. *)
Definition save (db : FingerprintDB Meta) (filename : string)
    (disk : gmap string Bytes) : gmap string Bytes :=
  <[filename :=
      pickle_dumps (mkPickled (hash_table db) (metadata db) (_next_track_id db))]>
    disk.

Definition load (filename : string) (disk : gmap string Bytes)
    : option (FingerprintDB Meta) :=
  contents ← disk !! filename;
  data ← pickle_loads contents;
  Some (mkDB (data_hash_table data) (data_metadata data) (data_next_track_id data)).

End Persistence.

(** ** Reading the votes

    What the specification calls [votes[tid][offset]] and [score(tid)], read
    off the dictionary the code builds, and the histogram of
    [db_anchor − query_anchor] stated on the index itself. *)

Definition vote_count (votes : pydict (pydict Z)) (track_id dt : Z) : Z :=
  default 0 (dict_get track_id votes ≫= dict_get dt).

(** [max(offsets.values())] for a track of [votes]; [0] for a track that
    received no vote. *)
Definition track_score (votes : pydict (pydict Z)) (track_id : Z) : Z :=
  default 0 (dict_get track_id votes ≫= λ offsets, py_max (dict_values offsets)).

(** The postings of [track_id] under token [h] whose anchor lies [dt] after
    the query anchor [offset]. *)
Definition aligned (table : gmap Z (list Posting)) (track_id dt : Z)
    (q : Hash) : list Posting :=
  filter (λ m : Posting, m.1 = track_id ∧ Int64.sub m.2 q.2 = dt)
         (default [] (table !! q.1)).

(** The size of bin [dt] of the offset histogram of [track_id]. *)
Definition bin_count (table : gmap Z (list Posting)) (hashes : list Hash)
    (track_id dt : Z) : Z :=
  foldr (λ q n, Z.of_nat (length (aligned table track_id dt q)) + n) 0 hashes.

(** The track identifiers in the order in which the scan of the query
    tokens meets their postings. *)
Definition posting_stream (table : gmap Z (list Posting))
    (hashes : list Hash) : list Z :=
  hashes ≫= λ q, (default [] (table !! q.1)).*1.

(** The first occurrence of each element, in order. *)
Definition see (seen : list Z) (x : Z) : list Z :=
  if decide (x ∈ seen) then seen else seen ++ [x].

Definition first_seen (l : list Z) : list Z := foldl see [] l.

(** [tid'] comes strictly before [tid] in the iteration order of [votes]. *)
Definition voted_before (votes : pydict (pydict Z)) (tid' tid : Z) : Prop :=
  ∃ i j : nat, (i < j)%nat ∧
    dict_keys votes !! i = Some tid' ∧ dict_keys votes !! j = Some tid.

(** What every loop of [recognise] keeps true of [votes]: keys are
    distinct, no histogram is empty, and every bin counts at least one
    vote. *)
Definition hist_ok (offsets : pydict Z) : Prop :=
  offsets ≠ [] ∧ NoDup (dict_keys offsets) ∧
  ∀ dt n, dict_get dt offsets = Some n → 1 <= n.

Definition votes_ok (votes : pydict (pydict Z)) : Prop :=
  NoDup (dict_keys votes) ∧
  ∀ track_id offsets, dict_get track_id votes = Some offsets → hist_ok offsets.

(** ** A world of synthetic recordings

    A recording is identified with its constellation, so that the engine
    can be run on explicit peak lists. *)

Module Synthetic.

Inductive file : Type :=
  | Recording (peaks : list Peak)
  | Unreadable.

Definition read_constellation (f : file) : option (list Peak) :=
  match f with
  | Recording peaks => Some peaks
  | Unreadable => None
  end.

Definition default_metadata (_ : file) : string := "untitled".

Definition add_track :=
  @add_track file string read_constellation stable_sort_by_time
    default_metadata.

Definition recognise :=
  @recognise file string read_constellation stable_sort_by_time.

Definition add_tracks :=
  @add_tracks file string read_constellation stable_sort_by_time
    default_metadata.

(** The state after adding [files] to a new index, oldest first. *)
Definition index_of (files : list file) : FingerprintDB string :=
  (add_tracks new_db ((λ f, (f, None)) <$> files)).2.

(** The peak list of scenario S6. *)
Definition s6_peaks : list Peak := [mkPeak 0 100; mkPeak 5 200; mkPeak 7 150].

(** A recording too quiet to have any peak above the amplitude floor. *)
Definition silence : file := Recording [].

Definition track_a : file := Recording [mkPeak 0 1; mkPeak 1 2].
Definition track_b : file := Recording [mkPeak 0 3; mkPeak 1 4].
(** [track_b] followed, well outside the fan window, by [track_a]. *)
Definition b_then_a : file :=
  Recording [mkPeak 0 3; mkPeak 1 4; mkPeak 300 1; mkPeak 301 2].

(** Two peaks in one frame whose frequency bins differ by 1024, so the
    pair with the first peak is emitted twice under one token. *)
Definition doubled_peaks : list Peak := [mkPeak 0 5; mkPeak 1 7; mkPeak 1 1031].
Definition doubled : file := Recording doubled_peaks.
Definition single : file := Recording [mkPeak 0 5; mkPeak 1 7].

(** The tally of a query against an index. *)
Definition votes_for (db : FingerprintDB string) (f : file) : pydict (pydict Z) :=
  match read_constellation f with
  | Some peaks =>
      tally (hash_table db) (generate_hashes stable_sort_by_time peaks)
  | None => []
  end.

Definition two_tracks : FingerprintDB string := index_of [track_a; track_b].

(** A pickle that stores the object as it is. *)
Definition pickle_dumps (data : Pickled string) : Pickled string := data.
Definition pickle_loads (contents : Pickled string) : option (Pickled string) :=
  Some contents.

End Synthetic.

(** ** Identifiers in use

    Every identifier that occurs in the index, as a key of the metadata or
    in a posting, lies below the counter. *)
Definition ids_in_range {Meta} (db : FingerprintDB Meta) : Prop :=
  0 <= _next_track_id db ∧
  (∀ tid, is_Some (metadata db !! tid) → 0 <= tid < _next_track_id db) ∧
  (∀ h tid t, (tid, t) ∈ default [] (hash_table db !! h) →
     0 <= tid < _next_track_id db).

(** ** The callers of the engine

    The scripts and the application store metadata dictionaries with
    string keys and string values. *)

(** *** [build_db.py] *)

Module BuildDb.
Section BuildDb.

Context {File Bytes : Type}.
Variable read_constellation : File → option (list Peak).
Variable sort_by_time : list Peak → list Peak.
Variable default_metadata : File → gmap string string.
Variable pickle_dumps : Pickled (gmap string string) → Bytes.
(** [sorted(wav_files)] *)
Variable sorted : list File → list File.
(** [os.path.splitext(os.path.basename(path))[0]] and
    [os.path.relpath(path, base_dir)] *)
Variable title_of rel_path_of : File → string.

(** [{"title": title, "filename": rel_path}] *)
Definition track_metadata (path : File) : gmap string string :=
  {[ "title" := title_of path; "filename" := rel_path_of path ]}.

(** [for path in sorted(wav_files): ... db.add_track(path, metadata)]; an
    exception leaves the loop and [main]. *)
Fixpoint add_all (db : FingerprintDB (gmap string string))
    (paths : list File) : outcome (FingerprintDB (gmap string string)) :=
  match paths with
  | [] => Returned db
  | path :: paths' =>
      match add_track read_constellation sort_by_time default_metadata
              db path (Some (track_metadata path)) with
      | (Returned _, db') => add_all db' paths'
      | (Raised, _) => Raised
      end
  end.

(** [main], from the result [is_dir] of [os.path.isdir(base_dir)] and the
    list [wav_files] collected by the walk: the outcome and the files on
    disk it leaves. *)
Definition main (is_dir : bool) (wav_files : list File) (out_path : string)
    (disk : gmap string Bytes) : outcome unit * gmap string Bytes :=
  if negb is_dir then (Raised, disk)                 (* FileNotFoundError *)
  else
    match wav_files with
    | [] => (Raised, disk)                           (* RuntimeError *)
    | _ :: _ =>
        match add_all new_db (sorted wav_files) with
        | Raised => (Raised, disk)
        | Returned db => (Returned (), save pickle_dumps db out_path disk)
        end
    end.

End BuildDb.
End BuildDb.

(** *** [evaluate_dataset.py] *)

Module EvaluateDataset.

(** The counters [attempts], [correct] and [rejected] of [main]. *)
Record counters : Type := mkCounters {
  attempts : Z;
  correct : Z;
  rejected : Z
}.

Section EvaluateDataset.

Context {File Rng : Type}.
Variable read_constellation : File → option (list Peak).
Variable sort_by_time : list Peak → list Peak.
Variable default_metadata : File → gmap string string.
(** [{"title": ..., "filename": rel}] *)
Variable track_metadata : File → gmap string string.
(** [rng.sample(all_files, max_tracks)], which raises for a size that is
    negative. *)
Variable sample : Rng → list File → Z → option (list File * Rng).
(** [make_query_clip(wav_path, clip_seconds, rng)]: the path of the clip
    written and the state of the generator after it; [None] when it
    raises. *)
Variable make_query_clip : File → Rng → option (File * Rng).

(** The loop that fills the index and [expected_by_id]. *)
Fixpoint build_index (db : FingerprintDB (gmap string string))
    (expected_by_id : pydict File) (files : list File)
    : outcome (FingerprintDB (gmap string string) * pydict File) :=
  match files with
  | [] => Returned (db, expected_by_id)
  | wav_path :: files' =>
      match add_track read_constellation sort_by_time default_metadata
              db wav_path (Some (track_metadata wav_path)) with
      | (Returned track_id, db') =>
          build_index db' (dict_set track_id wav_path expected_by_id) files'
      | (Raised, _) => Raised
      end
  end.

(** The loop over [expected_by_id.items()]. *)
Fixpoint run_queries (db : FingerprintDB (gmap string string))
    (min_score : Z) (items : pydict File) (rng : Rng) (c : counters)
    : outcome counters :=
  match items with
  | [] => Returned c
  | (track_id, wav_path) :: items' =>
      match make_query_clip wav_path rng with
      | None => Raised
      | Some (query_path, rng') =>
          match recognise read_constellation sort_by_time db query_path with
          | Raised => Raised
          | Returned (predicted_id, score) =>
              let c := mkCounters (attempts c + 1) (correct c) (rejected c) in
              match predicted_id with
              | None =>
                  run_queries db min_score items' rng'
                    (mkCounters (attempts c) (correct c) (rejected c + 1))
              | Some predicted =>
                  if score <? min_score then
                    run_queries db min_score items' rng'
                      (mkCounters (attempts c) (correct c) (rejected c + 1))
                  else if decide (predicted = track_id) then
                    run_queries db min_score items' rng'
                      (mkCounters (attempts c) (correct c + 1) (rejected c))
                  else run_queries db min_score items' rng' c
              end
          end
      end
  end.

(** The list of files that is evaluated:
    [if len(all_files) > args.max_tracks: all_files = rng.sample(...)]. *)
Definition choose_files (all_files : list File) (max_tracks : Z) (rng : Rng)
    : option (list File * Rng) :=
  if Z.of_nat (length all_files) >? max_tracks
  then sample rng all_files max_tracks
  else Some (all_files, rng).

(** [main], from the result of [os.path.isdir(music_dir)] and of
    [list_wav_files(music_dir)], up to the counters it prints. *)
Definition main (is_dir : bool) (all_files : list File)
    (max_tracks min_score : Z) (rng : Rng) : outcome counters :=
  if negb is_dir then Raised                         (* FileNotFoundError *)
  else
    match all_files with
    | [] => Raised                                   (* RuntimeError *)
    | _ :: _ =>
        match choose_files all_files max_tracks rng with
        | None => Raised
        | Some (files, rng') =>
            match build_index new_db [] files with
            | Raised => Raised
            | Returned (db, expected_by_id) =>
                run_queries db min_score expected_by_id rng'
                  (mkCounters 0 0 0)
            end
        end
    end.

End EvaluateDataset.
End EvaluateDataset.

(** *** [app.py] *)

Module App.

Definition newline : string := String (Ascii.ascii_of_nat 10) EmptyString.

(** The widgets of [MainWindow] that the slots write: the text of the
    label and whether the button is enabled. *)
Record window : Type := mkWindow {
  label_text : string;
  button_enabled : bool
}.

(** The slot [on_recognition_finished]. *)
Definition on_recognition_finished (db : FingerprintDB (gmap string string))
    (track_id : option Z) (score : Z) (w : window) : window :=
  let text :=
    match track_id with
    | None => "No match found"
    | Some tid =>
        if score <? 5 then "No match found"
        else
          let meta := default ∅ (metadata db !! tid) in
          let title := default "Unknown title" (meta !! "title") in
          let artist := default "Unknown artist" (meta !! "artist") in
          "Matched: " +:+ title +:+ " by " +:+ artist +:+ newline
            +:+ "Score: " +:+ pretty score
    end in
  mkWindow text true.

End App.

(** *** [prepare_fma.py] *)

Module PrepareFma.

(** The counters [converted], [skipped] and [failed] of [main]. *)
Record summary : Type := mkSummary {
  converted : Z;
  skipped : Z;
  failed : Z
}.

(** How a call of [convert_one] ends: it returns, [ffmpeg] exits with an
    error ([subprocess.CalledProcessError]), or something else is raised. *)
Inductive conversion : Type :=
  | Converted
  | CalledProcessError
  | OtherError.

Section PrepareFma.

Context {File FS : Type}.
(** [os.path.join(output_dir, os.path.splitext(rel)[0] + ".wav")] *)
Variable dst_of : File → string.
(** [os.path.exists(dst)] on the state of the file system *)
Variable path_exists : FS → string → bool.
(** [convert_one(src, dst)] and the file system it leaves *)
Variable convert_one : File → string → FS → conversion * FS.

(** The loop [for i, src in enumerate(mp3_files, start=1)]. *)
Fixpoint convert_all (skip_existing : bool) (mp3_files : list File) (fs : FS)
    (s : summary) : outcome summary * FS :=
  match mp3_files with
  | [] => (Returned s, fs)
  | src :: mp3_files' =>
      let dst := dst_of src in
      if skip_existing && path_exists fs dst then
        convert_all skip_existing mp3_files' fs
          (mkSummary (converted s) (skipped s + 1) (failed s))
      else
        match convert_one src dst fs with
        | (Converted, fs') =>
            convert_all skip_existing mp3_files' fs'
              (mkSummary (converted s + 1) (skipped s) (failed s))
        | (CalledProcessError, fs') =>
            convert_all skip_existing mp3_files' fs'
              (mkSummary (converted s) (skipped s) (failed s + 1))
        | (OtherError, fs') => (Raised, fs')
        end
  end.

(** [main], from the results of [os.path.isdir(input_dir)], of
    [shutil.which("ffmpeg")] and of [find_mp3_files(input_dir)], up to the
    counters it prints. *)
Definition main (is_dir has_ffmpeg : bool) (mp3_files : list File)
    (max_files : Z) (skip_existing : bool) (fs : FS)
    : outcome summary * FS :=
  if negb is_dir then (Raised, fs)                   (* FileNotFoundError *)
  else if negb has_ffmpeg then (Raised, fs)          (* RuntimeError *)
  else
    match mp3_files with
    | [] => (Raised, fs)                             (* RuntimeError *)
    | _ :: _ =>
        let mp3_files :=
          if max_files >? 0 then take (Z.to_nat max_files) mp3_files
          else mp3_files in
        convert_all skip_existing mp3_files fs (mkSummary 0 0 0)
    end.

End PrepareFma.
End PrepareFma.

(** *** Synthetic collections for the callers *)

Module SyntheticCallers.

Definition default_metadata (_ : Synthetic.file) : gmap string string :=
  {[ "title" := "untitled" ]}.

Definition title_of (f : Synthetic.file) : string :=
  match f with
  | Synthetic.Recording peaks => "recording-" +:+ pretty (length peaks)
  | Synthetic.Unreadable => "unreadable"
  end.

Definition rel_path_of (f : Synthetic.file) : string := title_of f +:+ ".wav".

(** The collections below are listed in sorted order. *)
Definition sorted (files : list Synthetic.file) : list Synthetic.file := files.

Definition pickle_dumps (data : Pickled (gmap string string))
    : Pickled (gmap string string) := data.
Definition pickle_loads (contents : Pickled (gmap string string))
    : option (Pickled (gmap string string)) := Some contents.

(** A generator whose state counts its uses; a sample is a prefix and a
    query clip is the whole recording. *)
Definition sample (rng : nat) (files : list Synthetic.file) (k : Z)
    : option (list Synthetic.file * nat) :=
  if k <? 0 then None else Some (take (Z.to_nat k) files, S rng).

Definition make_query_clip (f : Synthetic.file) (rng : nat)
    : option (Synthetic.file * nat) := Some (f, S rng).

Definition collection : list Synthetic.file :=
  [Synthetic.track_a; Synthetic.track_b].


Definition add_all :=
  BuildDb.add_all Synthetic.read_constellation stable_sort_by_time
    default_metadata title_of rel_path_of.

Definition evaluate_main :=
  EvaluateDataset.main Synthetic.read_constellation stable_sort_by_time
    default_metadata (BuildDb.track_metadata title_of rel_path_of)
    sample make_query_clip.

(** The index [build_db.main] makes of [collection]. *)
Definition build_main_index : FingerprintDB (gmap string string) :=
  match add_all new_db collection with
  | Returned db => db
  | Raised => new_db
  end.

(** An index that holds the longer recording [b_then_a] only. *)
Definition clip_index : FingerprintDB string :=
  Synthetic.index_of [Synthetic.b_then_a].

(** A file system as the list of the paths that exist; the conversion of
    ["bad.mp3"] fails. *)
Definition dst_of (src : string) : string := src +:+ ".wav".
Definition path_exists (fs : list string) (dst : string) : bool :=
  bool_decide (dst ∈ fs).
Definition convert_one (src dst : string) (fs : list string)
    : PrepareFma.conversion * list string :=
  if decide (src = "bad.mp3") then (PrepareFma.CalledProcessError, fs)
  else (PrepareFma.Converted, dst :: fs).

Definition prepare_main :=
  PrepareFma.main dst_of path_exists convert_one.

End SyntheticCallers.

(** * Properties *)

(** ** Facts on 64-bit arithmetic *)

Lemma int64_wrap_in_range z : Int64.in_range (Int64.wrap z).
Proof.
  unfold Int64.in_range, Int64.wrap, Int64.min_int, Int64.max_int.
  pose proof (Z.mod_pos_bound (z + 2 ^ 63) (2 ^ 64)). lia.
Qed.

Lemma int64_wrap_small z : Int64.in_range z → Int64.wrap z = z.
Proof.
  unfold Int64.in_range, Int64.wrap, Int64.min_int, Int64.max_int.
  intros Hz. rewrite Z.mod_small; lia.
Qed.

Lemma int64_sub_diag a : Int64.sub a a = 0.
Proof. unfold Int64.sub. rewrite Z.sub_diag. reflexivity. Qed.

(** When the operands are 64-bit and ordered, a difference that comes out
    non-negative has not wrapped. *)
Lemma int64_sub_ordered a b :
  Int64.in_range a → Int64.in_range b → b <= a →
  0 <= Int64.sub a b → Int64.sub a b = a - b.
Proof.
  unfold Int64.sub, Int64.wrap, Int64.in_range, Int64.min_int, Int64.max_int.
  intros Ha Hb Hab Hpos.
  destruct (Z_lt_le_dec (a - b) (2 ^ 63)) as [Hlt|Hge].
  - rewrite Z.mod_small; lia.
  - exfalso.
    replace (a - b + 2 ^ 63) with ((a - b - 2 ^ 63) + 1 * 2 ^ 64) in Hpos by lia.
    rewrite Z.mod_add in Hpos by lia.
    rewrite Z.mod_small in Hpos; lia.
Qed.

(** ** The bit layout of a token *)

Lemma lor_disjoint_add x y k :
  0 <= k → 0 <= y < 2 ^ k → Z.lor (x * 2 ^ k) y = x * 2 ^ k + y.
Proof.
  intros Hk Hy.
  assert (Hdisj : Z.land (x * 2 ^ k) y = 0).
  { apply Z.bits_inj'. intros n Hn. rewrite Z.land_spec, Z.bits_0.
    destruct (Z_lt_le_dec n k) as [Hlt|Hge].
    - rewrite Z.mul_pow2_bits_low by lia. reflexivity.
    - rewrite <- (Z.mod_small y (2 ^ k)) by lia.
      rewrite Z.mod_pow2_bits_high by lia. apply andb_false_r. }
  rewrite <- Z.lxor_lor by exact Hdisj.
  symmetry. apply Z.add_nocarry_lxor. exact Hdisj.
Qed.

Lemma land_mask10 z : Z.land z 0x3FF = z mod 1024.
Proof. change 0x3FF with (Z.ones 10). rewrite Z.land_ones by lia. reflexivity. Qed.

Lemma land_mask12 z : Z.land z 0xFFF = z mod 4096.
Proof. change 0xFFF with (Z.ones 12). rewrite Z.land_ones by lia. reflexivity. Qed.

(** The token as a sum of its three fields. *)
Lemma pack_hash_sum a b d :
  pack_hash a b d = (a mod 1024) * 2 ^ 22 + (b mod 1024) * 2 ^ 12 + d mod 4096.
Proof.
  unfold pack_hash. rewrite !land_mask10, land_mask12, !Z.shiftl_mul_pow2 by lia.
  pose proof (Z.mod_pos_bound a 1024). pose proof (Z.mod_pos_bound b 1024).
  pose proof (Z.mod_pos_bound d 4096).
  replace (a mod 1024 * 2 ^ 22) with ((a mod 1024 * 2 ^ 10) * 2 ^ 12) by lia.
  rewrite <- Z.mul_add_distr_r.
  replace (Z.lor (a mod 1024 * 2 ^ 10 * 2 ^ 12) (b mod 1024 * 2 ^ 12))
    with ((a mod 1024 * 2 ^ 10 + b mod 1024) * 2 ^ 12).
  - apply lor_disjoint_add; lia.
  - rewrite <- (lor_disjoint_add (a mod 1024) (b mod 1024) 10) by lia.
    rewrite <- !Z.shiftl_mul_pow2 by lia. apply Z.shiftl_lor.
Qed.

Lemma pack_hash_anchor a b d : Z.shiftr (pack_hash a b d) 22 = Z.land a 0x3FF.
Proof.
  rewrite pack_hash_sum, land_mask10, Z.shiftr_div_pow2 by lia.
  pose proof (Z.mod_pos_bound a 1024). pose proof (Z.mod_pos_bound b 1024).
  pose proof (Z.mod_pos_bound d 4096).
  symmetry. apply (Z.div_unique _ _ _ ((b mod 1024) * 2 ^ 12 + d mod 4096)); lia.
Qed.

Lemma pack_hash_target a b d :
  Z.land (Z.shiftr (pack_hash a b d) 12) 0x3FF = Z.land b 0x3FF.
Proof.
  rewrite pack_hash_sum, !land_mask10, Z.shiftr_div_pow2 by lia.
  pose proof (Z.mod_pos_bound a 1024). pose proof (Z.mod_pos_bound b 1024).
  pose proof (Z.mod_pos_bound d 4096).
  replace ((a mod 1024 * 2 ^ 22 + b mod 1024 * 2 ^ 12 + d mod 4096) / 2 ^ 12)
    with (b mod 1024 + (a mod 1024) * 1024).
  - rewrite Z.mod_add by lia. apply Z.mod_small; lia.
  - apply (Z.div_unique _ _ _ (d mod 4096)); lia.
Qed.

Lemma pack_hash_dt a b d : Z.land (pack_hash a b d) 0xFFF = Z.land d 0xFFF.
Proof.
  rewrite pack_hash_sum, !land_mask12.
  pose proof (Z.mod_pos_bound d 4096).
  replace (a mod 1024 * 2 ^ 22 + b mod 1024 * 2 ^ 12 + d mod 4096)
    with (d mod 4096 + (a mod 1024 * 1024 + b mod 1024) * 4096) by lia.
  rewrite Z.mod_add by lia. apply Z.mod_small; lia.
Qed.

(** ** What the hasher emits *)

Section HasherFacts.

Variable sort_by_time : list Peak → list Peak.
Variable fan_value : nat.
Variable min_time_delta max_time_delta : Z.

Local Abbreviation fan_loop := (fan_loop min_time_delta max_time_delta).
Local Abbreviation anchor_loop :=
  (anchor_loop fan_value min_time_delta max_time_delta).

Lemma fan_loop_emits peaks i anchor js h t :
  (h, t) ∈ fan_loop peaks i anchor js →
  ∃ (j : nat) target, j ∈ js ∧ peaks !! (i + j)%nat = Some target ∧
    t = pk_time anchor ∧
    h = pack_hash (pk_freq anchor) (pk_freq target)
          (Int64.sub (pk_time target) (pk_time anchor)) ∧
    min_time_delta <= Int64.sub (pk_time target) (pk_time anchor)
      <= max_time_delta.
Proof.
  induction js as [|j js IH]; simpl.
  - intros H. inversion H.
  - destruct (peaks !! (i + j)%nat) as [target|] eqn:Hlk.
    2: { intros H. inversion H. }
    destruct (Z.ltb_spec (Int64.sub (pk_time target) (pk_time anchor))
                min_time_delta) as [Hlt|Hge].
    { intros H. destruct (IH H) as (j' & tg & Hj & Hrest).
      exists j', tg. split; [by right | exact Hrest]. }
    destruct (Z.gtb_spec (Int64.sub (pk_time target) (pk_time anchor))
                max_time_delta) as [Hgt|Hle].
    { intros H. inversion H. }
    intros H. apply elem_of_cons in H as [Heq|H].
    + inversion Heq; subst. exists j, target.
      repeat split; [by left | done | lia | lia].
    + destruct (IH H) as (j' & tg & Hj & Hrest).
      exists j', tg. split; [by right | exact Hrest].
Qed.

Lemma anchor_loop_emits peaks is_ h t :
  (h, t) ∈ anchor_loop peaks is_ →
  ∃ anchor target, paired_in peaks fan_value anchor target ∧
    t = pk_time anchor ∧
    h = pack_hash (pk_freq anchor) (pk_freq target)
          (Int64.sub (pk_time target) (pk_time anchor)) ∧
    min_time_delta <= Int64.sub (pk_time target) (pk_time anchor)
      <= max_time_delta.
Proof.
  induction is_ as [|i is_ IH]; simpl.
  - intros H. inversion H.
  - destruct (peaks !! i) as [anchor|] eqn:Hi; [|exact IH].
    intros H. apply elem_of_app in H as [H|H]; [|exact (IH H)].
    apply fan_loop_emits in H as (j & target & Hj & Hlk & Ht & Hh & Hdt).
    exists anchor, target. split; [|done].
    exists i, j. apply elem_of_seq in Hj. split; [lia | done].
Qed.

Lemma generate_hashes_with_emits peaks h t :
  (h, t) ∈ generate_hashes_with sort_by_time fan_value
             min_time_delta max_time_delta peaks →
  ∃ anchor target, paired_in (sort_by_time peaks) fan_value anchor target ∧
    t = pk_time anchor ∧
    h = pack_hash (pk_freq anchor) (pk_freq target)
          (Int64.sub (pk_time target) (pk_time anchor)) ∧
    min_time_delta <= Int64.sub (pk_time target) (pk_time anchor)
      <= max_time_delta.
Proof. apply anchor_loop_emits. Qed.

End HasherFacts.

Global Instance time_le_total : Total time_le.
Proof. intros p q. unfold time_le. lia. Qed.

Global Instance time_le_trans : Transitive time_le.
Proof. intros p q r. unfold time_le. lia. Qed.

Lemma stable_sort_sorts : sorts_by_time stable_sort_by_time.
Proof.
  split; intros l.
  - apply merge_sort_Permutation.
  - apply Sorted_merge_sort, _.
Qed.

(** In a sorted array a later row has a later (or equal) time index. *)
Lemma sorted_lookup_time_le (peaks : list Peak) (i j : nat) p q :
  Sorted time_le peaks → (i < j)%nat →
  peaks !! i = Some p → peaks !! j = Some q → time_le p q.
Proof.
  intros Hs%Sorted_StronglySorted; [|apply _].
  revert i j. induction Hs as [|x l Hs IH Hall]; intros i j Hij Hi Hj.
  - rewrite lookup_nil in Hi. discriminate.
  - destruct j as [|j]; [lia|]. destruct i as [|i]; simpl in *.
    + inversion Hi; subst. rewrite Forall_forall in Hall.
      apply Hall, list_elem_of_lookup. eauto.
    + apply (IH i j); [lia | done | done].
Qed.

(** C3. Every token the hasher emits comes from an anchor row and a target
    row of the sorted array and obeys the bit layout: its bits from 22 up
    are [anchor_freq & 0x3FF], bits 12..21 are [target_freq & 0x3FF] and
    bits 0..11 are [Δt & 0xFFF].  The two frequency fields are the
    frequency bins reduced modulo 1024: a bin of 1024 or more is folded by
    the mask, not clamped. *)
Theorem token_bit_layout sort_by_time fan_value min_time_delta max_time_delta
    peaks h t :
  (h, t) ∈ generate_hashes_with sort_by_time fan_value
             min_time_delta max_time_delta peaks →
  ∃ anchor target,
    paired_in (sort_by_time peaks) fan_value anchor target ∧
    t = pk_time anchor ∧
    Z.shiftr h 22 = Z.land (pk_freq anchor) 0x3FF ∧
    Z.land (Z.shiftr h 12) 0x3FF = Z.land (pk_freq target) 0x3FF ∧
    Z.land h 0xFFF =
      Z.land (Int64.sub (pk_time target) (pk_time anchor)) 0xFFF ∧
    Z.shiftr h 22 = pk_freq anchor mod 1024 ∧
    Z.land (Z.shiftr h 12) 0x3FF = pk_freq target mod 1024.
Proof.
  intros H.
  apply generate_hashes_with_emits in H
    as (anchor & target & Hpair & Ht & Hh & _).
  exists anchor, target. subst h.
  rewrite pack_hash_anchor, pack_hash_target, pack_hash_dt, !land_mask10.
  done.
Qed.

(** The pair of [(0, 5)] with [(1, 1031)]: the target field of the token
    holds [1031 mod 1024 = 7]. *)
Lemma token_bit_layout_witness :
  (21000193, 0) ∈ generate_hashes_with stable_sort_by_time 10 0 200
                    Synthetic.doubled_peaks ∧
  ∃ anchor target,
    paired_in (stable_sort_by_time Synthetic.doubled_peaks) 10 anchor target ∧
    0 = pk_time anchor ∧
    Z.shiftr 21000193 22 = Z.land (pk_freq anchor) 0x3FF ∧
    Z.land (Z.shiftr 21000193 12) 0x3FF = Z.land (pk_freq target) 0x3FF ∧
    Z.land 21000193 0xFFF =
      Z.land (Int64.sub (pk_time target) (pk_time anchor)) 0xFFF ∧
    Z.shiftr 21000193 22 = pk_freq anchor mod 1024 ∧
    Z.land (Z.shiftr 21000193 12) 0x3FF = pk_freq target mod 1024.
Proof.
  assert (Hin : (21000193, 0) ∈ generate_hashes_with stable_sort_by_time 10 0
                  200 Synthetic.doubled_peaks).
  { vm_compute. repeat constructor. }
  split; [exact Hin|].
  exact (token_bit_layout stable_sort_by_time 10 0 200 Synthetic.doubled_peaks
           21000193 0 Hin).
Defined.

(** C4. For an [int64] peak array, every pair the hasher emits has a time
    delta, as the code computes it, within [min_time_delta] and
    [max_time_delta] inclusive; when [min_time_delta] is not negative that
    delta is exactly [target_time − anchor_time].  At the defaults
    [0 ≤ target_time − anchor_time ≤ 200]. *)
Theorem hasher_dt_bounds sort_by_time peaks :
  sorts_by_time sort_by_time → Forall int64_peak peaks →
  (∀ fan_value min_time_delta max_time_delta h t,
     (h, t) ∈ generate_hashes_with sort_by_time fan_value
                min_time_delta max_time_delta peaks →
     ∃ anchor target,
       paired_in (sort_by_time peaks) fan_value anchor target ∧
       t = pk_time anchor ∧
       h = pack_hash (pk_freq anchor) (pk_freq target)
             (Int64.sub (pk_time target) (pk_time anchor)) ∧
       min_time_delta <= Int64.sub (pk_time target) (pk_time anchor)
         <= max_time_delta ∧
       (0 <= min_time_delta →
        Int64.sub (pk_time target) (pk_time anchor)
          = pk_time target - pk_time anchor)) ∧
  (∀ h t,
     (h, t) ∈ generate_hashes sort_by_time peaks →
     ∃ anchor target,
       paired_in (sort_by_time peaks) default_fan_value anchor target ∧
       t = pk_time anchor ∧
       h = pack_hash (pk_freq anchor) (pk_freq target)
             (pk_time target - pk_time anchor) ∧
       0 <= pk_time target - pk_time anchor <= 200).
Proof.
  intros [Hperm Hsorted] Hpeaks.
  assert (Hgen : ∀ fan_value min_time_delta max_time_delta h t,
    (h, t) ∈ generate_hashes_with sort_by_time fan_value
               min_time_delta max_time_delta peaks →
    ∃ anchor target,
      paired_in (sort_by_time peaks) fan_value anchor target ∧
      t = pk_time anchor ∧
      h = pack_hash (pk_freq anchor) (pk_freq target)
            (Int64.sub (pk_time target) (pk_time anchor)) ∧
      min_time_delta <= Int64.sub (pk_time target) (pk_time anchor)
        <= max_time_delta ∧
      (0 <= min_time_delta →
       Int64.sub (pk_time target) (pk_time anchor)
         = pk_time target - pk_time anchor)).
  { intros fan mn mx h t H.
    apply generate_hashes_with_emits in H
      as (anchor & target & Hpair & Ht & Hh & Hdt).
    exists anchor, target. repeat split; try done; try lia.
    intros Hmn. destruct Hpair as (i & j & Hj & Hi & Hij).
    assert (Hall : Forall int64_peak (sort_by_time peaks))
      by (by rewrite Hperm).
    rewrite Forall_forall in Hall.
    assert (Ha : int64_peak anchor) by (apply Hall, list_elem_of_lookup; eauto).
    assert (Hb : int64_peak target) by (apply Hall, list_elem_of_lookup; eauto).
    apply int64_sub_ordered; [apply Hb | apply Ha | | lia].
    apply (sorted_lookup_time_le (sort_by_time peaks) i (i + j));
      [apply Hsorted | lia | done | done]. }
  split; [exact Hgen|].
  intros h t H. apply Hgen in H as (anchor & target & Hp & Ht & Hh & Hdt & Heq).
  unfold default_min_time_delta, default_max_time_delta in *.
  exists anchor, target. rewrite <- Heq by lia. done.
Qed.

Lemma hasher_dt_bounds_witness :
  sorts_by_time stable_sort_by_time ∧
  Forall int64_peak Synthetic.s6_peaks ∧
  ∀ h t,
    (h, t) ∈ generate_hashes stable_sort_by_time Synthetic.s6_peaks →
    ∃ anchor target,
      paired_in (stable_sort_by_time Synthetic.s6_peaks) default_fan_value
        anchor target ∧
      t = pk_time anchor ∧
      h = pack_hash (pk_freq anchor) (pk_freq target)
            (pk_time target - pk_time anchor) ∧
      0 <= pk_time target - pk_time anchor <= 200.
Proof.
  assert (Hpeaks : Forall int64_peak Synthetic.s6_peaks).
  { repeat constructor; vm_compute; discriminate. }
  split; [exact stable_sort_sorts|]. split; [exact Hpeaks|].
  exact (proj2 (hasher_dt_bounds stable_sort_by_time Synthetic.s6_peaks
                  stable_sort_sorts Hpeaks)).
Defined.

(** Scenario S6: the three tokens of the fixed peak list. *)
Example s6_tokens :
  generate_hashes stable_sort_by_time Synthetic.s6_peaks
    = [(420249605, 0); (420044807, 0); (839475202, 5)].
Proof. reflexivity. Qed.

(** ** Dictionaries *)

Section DictFacts.

Context {V : Type}.
Implicit Types (d : pydict V) (k : Z) (v : V).

Lemma dict_get_set_eq k v d : dict_get k (dict_set k v d) = Some v.
Proof.
  induction d as [|[k' v'] d IH]; simpl.
  - by rewrite decide_True.
  - destruct (decide (k = k')) as [->|Hne]; simpl.
    + by rewrite decide_True.
    + by rewrite decide_False.
Qed.

Lemma dict_get_set_ne k k' v d :
  k ≠ k' → dict_get k' (dict_set k v d) = dict_get k' d.
Proof.
  intros Hne. induction d as [|[k0 v0] d IH]; simpl.
  - by rewrite decide_False.
  - destruct (decide (k = k0)) as [->|Hne0]; simpl.
    + by rewrite !decide_False.
    + by rewrite IH.
Qed.

Lemma dict_set_set k v v' d : dict_set k v (dict_set k v' d) = dict_set k v d.
Proof.
  induction d as [|[k0 v0] d IH]; simpl.
  - by rewrite decide_True.
  - destruct (decide (k = k0)) as [->|Hne]; simpl.
    + by rewrite decide_True.
    + by rewrite decide_False, IH.
Qed.

Lemma dict_get_None k d : dict_get k d = None ↔ k ∉ dict_keys d.
Proof.
  unfold dict_keys. induction d as [|[k0 v0] d IH]; simpl.
  - split; [intros _ H; inversion H | done].
  - rewrite not_elem_of_cons. destruct (decide (k = k0)) as [->|Hne].
    + split; [done | intros [? _]; done].
    + rewrite IH. split; [by intros ? | by intros [_ ?]].
Qed.

Lemma dict_get_Some_elem k v d : dict_get k d = Some v → (k, v) ∈ d.
Proof.
  induction d as [|[k0 v0] d IH]; simpl; [done|].
  destruct (decide (k = k0)) as [->|Hne].
  - intros [= ->]. by left.
  - intros H. right. by apply IH.
Qed.

Lemma dict_get_is_Some k d : is_Some (dict_get k d) ↔ k ∈ dict_keys d.
Proof.
  destruct (dict_get k d) as [v|] eqn:Hg.
  - split; [intros _ | by eauto].
    apply dict_get_Some_elem in Hg. unfold dict_keys.
    apply list_elem_of_fmap. by exists (k, v).
  - apply dict_get_None in Hg. split; [by intros [? ?] | done].
Qed.

Lemma dict_elem_get k v d : NoDup (dict_keys d) → (k, v) ∈ d → dict_get k d = Some v.
Proof.
  unfold dict_keys. induction d as [|[k0 v0] d IH]; simpl.
  - intros _ H. inversion H.
  - intros Hnd H. apply NoDup_cons in Hnd as [Hk0 Hnd].
    apply elem_of_cons in H as [[= -> ->]|H].
    + by rewrite decide_True.
    + destruct (decide (k = k0)) as [->|Hne]; [|by apply IH].
      exfalso. apply Hk0, list_elem_of_fmap. by exists (k0, v).
Qed.

(** A new key goes to the end; an existing key keeps its place. *)
Lemma dict_keys_set k v d :
  dict_keys (dict_set k v d)
    = if decide (k ∈ dict_keys d) then dict_keys d else dict_keys d ++ [k].
Proof.
  unfold dict_keys. induction d as [|[k0 v0] d IH]; [done|].
  cbn [dict_set]. destruct (decide (k = k0)) as [->|Hne]; csimpl.
  - rewrite decide_True; [done | by left].
  - rewrite IH. destruct (decide (k ∈ d.*1)) as [Hin|Hnin].
    + rewrite decide_True; [done | by right].
    + rewrite decide_False; [done|]. rewrite not_elem_of_cons. done.
Qed.

Lemma dict_set_NoDup k v d :
  NoDup (dict_keys d) → NoDup (dict_keys (dict_set k v d)).
Proof.
  intros Hnd. rewrite dict_keys_set. case_decide; [done|].
  apply NoDup_app. split; [done|]. split.
  - intros x Hx Hx'. apply list_elem_of_singleton in Hx'. by subst.
  - apply NoDup_singleton.
Qed.

Lemma dict_set_nonempty k v d : dict_set k v d ≠ [].
Proof. destruct d as [|[k0 v0] d]; simpl; [done|]. by case_decide. Qed.

Lemma dict_get_set k k' v d :
  dict_get k' (dict_set k v d) = if decide (k = k') then Some v else dict_get k' d.
Proof.
  case_decide as H; [subst; apply dict_get_set_eq | by apply dict_get_set_ne].
Qed.

End DictFacts.

(** ** [max] *)

Lemma foldl_max_spec (xs : list Z) (x : Z) :
  (foldl Z.max x xs = x ∨ foldl Z.max x xs ∈ xs) ∧
  x <= foldl Z.max x xs ∧ ∀ y, y ∈ xs → y <= foldl Z.max x xs.
Proof.
  revert x. induction xs as [|a xs IH]; intros x; simpl.
  - split; [by left|]. split; [lia|]. intros y Hy. inversion Hy.
  - destruct (IH (Z.max x a)) as (Hin & Hle & Hall). split; [|split].
    + destruct Hin as [Heq|Hin]; [|right; by right].
      rewrite Heq. destruct (Z.max_spec x a) as [[_ ->]|[_ ->]];
        [right; by left | by left].
    + lia.
    + intros y Hy. apply elem_of_cons in Hy as [->|Hy]; [lia | by apply Hall].
Qed.

Lemma py_max_Some xs m :
  py_max xs = Some m → m ∈ xs ∧ ∀ y, y ∈ xs → y <= m.
Proof.
  destruct xs as [|x xs]; simpl; [done|]. intros [= <-].
  destruct (foldl_max_spec xs x) as (Hin & Hle & Hall). split.
  - destruct Hin as [->|Hin]; [by left | by right].
  - intros y Hy. apply elem_of_cons in Hy as [->|Hy]; [done | by apply Hall].
Qed.

Lemma py_max_is_Some xs : xs ≠ [] → is_Some (py_max xs).
Proof. destruct xs; [done | by eauto]. Qed.

(** The score of a well-formed histogram is the count of one of its bins
    and bounds all of them. *)
Lemma hist_score (offsets : pydict Z) :
  hist_ok offsets →
  ∃ s, py_max (dict_values offsets) = Some s ∧ 1 <= s ∧
    (∃ dt, dict_get dt offsets = Some s) ∧
    ∀ dt n, dict_get dt offsets = Some n → n <= s.
Proof.
  intros (Hne & Hnd & Hpos).
  destruct (py_max_is_Some (dict_values offsets)) as [s Hs].
  { unfold dict_values. by destruct offsets. }
  exists s. split; [done|].
  apply py_max_Some in Hs as [Hin Hmax].
  unfold dict_values in Hin. apply list_elem_of_fmap in Hin as ([dt n] & -> & Hin).
  simpl. apply dict_elem_get in Hin; [|done].
  split; [by eapply Hpos|]. split; [by eauto|].
  intros dt' n' Hg. apply Hmax. unfold dict_values.
  apply list_elem_of_fmap. exists (dt', n'). split; [done|].
  by apply dict_get_Some_elem.
Qed.

(** ** Casting votes *)

Lemma vote_unfold votes track_id dt :
  vote votes track_id dt
    = dict_set track_id
        (dict_set dt (vote_count votes track_id dt + 1)
           (default [] (dict_get track_id votes)))
        votes.
Proof.
  unfold vote, vote_count.
  destruct (dict_get track_id votes) as [offsets|]; simpl.
  - destruct (dict_get dt offsets) as [n|] eqn:Hn; simpl.
    + by rewrite Hn.
    + by rewrite dict_get_set_eq, dict_set_set.
  - by rewrite !decide_True.
Qed.

Lemma vote_count_get votes track_id dt :
  vote_count votes track_id dt
    = default 0 (dict_get dt (default [] (dict_get track_id votes))).
Proof. unfold vote_count. by destruct (dict_get track_id votes). Qed.

Lemma vote_count_vote votes track_id dt track_id' dt' :
  vote_count (vote votes track_id dt) track_id' dt'
    = vote_count votes track_id' dt'
      + (if decide (track_id' = track_id ∧ dt' = dt) then 1 else 0).
Proof.
  rewrite vote_unfold, (vote_count_get (dict_set _ _ _)), dict_get_set.
  destruct (decide (track_id = track_id')) as [<-|Hne]; simpl.
  - rewrite dict_get_set. destruct (decide (dt = dt')) as [<-|Hne]; simpl.
    + by rewrite decide_True.
    + rewrite decide_False by (intros [? ?]; congruence). rewrite <- vote_count_get. lia.
  - rewrite decide_False by (intros [? ?]; congruence). rewrite <- vote_count_get. lia.
Qed.

Lemma vote_count_nonneg votes track_id dt :
  votes_ok votes → 0 <= vote_count votes track_id dt.
Proof.
  intros [_ Hok]. unfold vote_count.
  destruct (dict_get track_id votes) as [offsets|] eqn:Ho; simpl; [|lia].
  destruct (dict_get dt offsets) as [n|] eqn:Hn; simpl; [|lia].
  destruct (Hok _ _ Ho) as (_ & _ & Hpos). specialize (Hpos _ _ Hn). lia.
Qed.

Lemma votes_ok_nil : votes_ok [].
Proof. split; [apply NoDup_nil_2 | done]. Qed.

Lemma votes_ok_vote votes track_id dt :
  votes_ok votes → votes_ok (vote votes track_id dt).
Proof.
  intros Hok. pose proof (vote_count_nonneg votes track_id dt Hok) as Hc.
  destruct Hok as [Hnd Hok]. rewrite vote_unfold. split.
  - by apply dict_set_NoDup.
  - intros tid offsets. rewrite dict_get_set.
    destruct (decide (track_id = tid)) as [<-|Hne]; [|apply Hok].
    intros [= <-]. split; [apply dict_set_nonempty|]. split.
    + apply dict_set_NoDup.
      destruct (dict_get track_id votes) as [o|] eqn:Ho; simpl.
      * by destruct (Hok _ _ Ho) as (_ & ? & _).
      * apply NoDup_nil_2.
    + intros dt' n. rewrite dict_get_set.
      destruct (decide (dt = dt')) as [<-|Hne]; [intros [= <-]; lia|].
      destruct (dict_get track_id votes) as [o|] eqn:Ho; simpl; [|done].
      destruct (Hok _ _ Ho) as (_ & _ & Hpos). apply Hpos.
Qed.

Lemma dict_keys_vote votes track_id dt :
  dict_keys (vote votes track_id dt) = see (dict_keys votes) track_id.
Proof. rewrite vote_unfold. apply dict_keys_set. Qed.

(** ** Tallying a query *)

Lemma tally_hash_matches table votes (q : Hash) :
  tally_hash table votes q
    = tally_matches votes q.2 (default [] (table !! q.1)).
Proof.
  unfold tally_hash. destruct (table !! q.1) as [[|m ms]|]; done.
Qed.

Lemma votes_ok_tally_matches votes offset matches :
  votes_ok votes → votes_ok (tally_matches votes offset matches).
Proof.
  unfold tally_matches. revert votes.
  induction matches as [|m ms IH]; intros votes Hok; simpl; [done|].
  by apply IH, votes_ok_vote.
Qed.

Lemma vote_count_tally_matches votes offset matches track_id dt :
  vote_count (tally_matches votes offset matches) track_id dt
    = vote_count votes track_id dt
      + Z.of_nat (length (filter
          (λ m : Posting, m.1 = track_id ∧ Int64.sub m.2 offset = dt) matches)).
Proof.
  unfold tally_matches. revert votes.
  induction matches as [|m ms IH]; intros votes; simpl; [lia|].
  rewrite IH, vote_count_vote, filter_cons.
  destruct (decide (m.1 = track_id ∧ Int64.sub m.2 offset = dt)) as [[? ?]|Hn].
  - rewrite decide_True by done. simpl. lia.
  - rewrite decide_False by (intros [? ?]; apply Hn; by split). lia.
Qed.

Lemma dict_keys_tally_matches votes offset matches :
  dict_keys (tally_matches votes offset matches)
    = foldl see (dict_keys votes) matches.*1.
Proof.
  unfold tally_matches. revert votes.
  induction matches as [|m ms IH]; intros votes; simpl; [done|].
  by rewrite IH, dict_keys_vote.
Qed.

Lemma votes_ok_tally_from table votes hashes :
  votes_ok votes → votes_ok (foldl (tally_hash table) votes hashes).
Proof.
  revert votes. induction hashes as [|q qs IH]; intros votes Hok; simpl; [done|].
  apply IH. rewrite tally_hash_matches. by apply votes_ok_tally_matches.
Qed.

Lemma vote_count_tally_from table votes hashes track_id dt :
  vote_count (foldl (tally_hash table) votes hashes) track_id dt
    = vote_count votes track_id dt + bin_count table hashes track_id dt.
Proof.
  revert votes. induction hashes as [|q qs IH]; intros votes; simpl.
  - unfold bin_count. simpl. lia.
  - rewrite IH, tally_hash_matches, vote_count_tally_matches.
    unfold bin_count, aligned. simpl. lia.
Qed.

Lemma dict_keys_tally_from table votes hashes :
  dict_keys (foldl (tally_hash table) votes hashes)
    = foldl see (dict_keys votes) (posting_stream table hashes).
Proof.
  unfold posting_stream. revert votes.
  induction hashes as [|q qs IH]; intros votes; [done|].
  rewrite bind_cons, foldl_app. cbn [foldl].
  by rewrite IH, tally_hash_matches, dict_keys_tally_matches.
Qed.

Lemma votes_ok_tally table hashes : votes_ok (tally table hashes).
Proof. apply votes_ok_tally_from, votes_ok_nil. Qed.

(** The dictionary the code builds is the offset histogram. *)
Lemma vote_count_tally table hashes track_id dt :
  vote_count (tally table hashes) track_id dt
    = bin_count table hashes track_id dt.
Proof. unfold tally. by rewrite vote_count_tally_from. Qed.

(** Its iteration order is the order in which tracks are first met. *)
Lemma dict_keys_tally table hashes :
  dict_keys (tally table hashes) = first_seen (posting_stream table hashes).
Proof. unfold tally. by rewrite dict_keys_tally_from. Qed.

(** ** Scores *)

Lemma track_score_voted votes track_id offsets :
  votes_ok votes → dict_get track_id votes = Some offsets →
  py_max (dict_values offsets) = Some (track_score votes track_id) ∧
  1 <= track_score votes track_id.
Proof.
  intros [_ Hok] Hg. unfold track_score. rewrite Hg. simpl.
  destruct (hist_score offsets (Hok _ _ Hg)) as (s & -> & Hs & _). done.
Qed.

Lemma track_score_unvoted votes track_id :
  track_id ∉ dict_keys votes → track_score votes track_id = 0.
Proof.
  intros Hk%dict_get_None. unfold track_score. by rewrite Hk.
Qed.

Lemma track_score_nonneg votes track_id :
  votes_ok votes → 0 <= track_score votes track_id.
Proof.
  intros Hok. destruct (dict_get track_id votes) as [o|] eqn:Hg.
  - destruct (track_score_voted _ _ _ Hok Hg). lia.
  - rewrite track_score_unvoted; [lia | by apply dict_get_None].
Qed.

(** [score(tid)] is the largest bin of the histogram of [tid]. *)
Lemma track_score_max votes track_id :
  votes_ok votes →
  (∃ dt, track_score votes track_id = vote_count votes track_id dt) ∧
  ∀ dt, vote_count votes track_id dt <= track_score votes track_id.
Proof.
  intros Hok. pose proof Hok as [_ Hh].
  unfold track_score, vote_count.
  destruct (dict_get track_id votes) as [o|] eqn:Hg; simpl.
  - destruct (hist_score o (Hh _ _ Hg)) as (s & -> & Hs & [dt Hdt] & Hmax).
    simpl. split.
    + exists dt. by rewrite Hdt.
    + intros dt'. destruct (dict_get dt' o) as [n|] eqn:Hn; simpl; [|lia].
      by eapply Hmax.
  - split; [by exists 0 | done].
Qed.

(** ** Choosing the best track *)

Lemma item_score votes k (o : pydict Z) :
  votes_ok votes → (k, o) ∈ votes →
  py_max (dict_values o) = Some (track_score votes k) ∧
  1 <= track_score votes k.
Proof.
  intros Hok Hin. apply (track_score_voted votes k o Hok).
  apply dict_elem_get; [apply Hok | done].
Qed.

(** The loop returns; its result is either the pair it started from, when
    no score exceeds the starting score, or the first item whose score is
    the largest. *)
Lemma best_loop_spec votes items best :
  votes_ok votes → (∀ item, item ∈ items → item ∈ votes) →
  ∃ r, best_loop items best = Some r ∧
    ((r = best ∧ ∀ k o, (k, o) ∈ items → track_score votes k <= best.2)
     ∨ ∃ (i : nat) k o,
         items !! i = Some (k, o) ∧
         r = (Some k, track_score votes k) ∧
         best.2 < track_score votes k ∧
         (∀ (j : nat) k' o', (j < i)%nat → items !! j = Some (k', o') →
            track_score votes k' < track_score votes k) ∧
         (∀ k' o', (k', o') ∈ items →
            track_score votes k' <= track_score votes k)).
Proof.
  intros Hok. revert best.
  induction items as [|[k o] items IH]; intros best Hsub.
  - exists best. split; [done|]. left. split; [done|].
    intros k o H. inversion H.
  - destruct (item_score votes k o Hok) as [Hmax Hpos].
    { apply Hsub. by left. }
    assert (Hsub' : ∀ item, item ∈ items → item ∈ votes).
    { intros item Hin. apply Hsub. by right. }
    cbn [best_loop]. unfold best_step. cbn [fst snd]. rewrite Hmax. cbn.
    destruct (Z.gtb_spec (track_score votes k) best.2) as [Hgt|Hle].
    + destruct (IH (Some k, track_score votes k) Hsub')
        as (r & Hr & [[-> Hall]|(i & k1 & o1 & Hi & -> & Hlt & Hbefore & Hall)]).
      * exists (Some k, track_score votes k). split; [done|]. right.
        exists 0%nat, k, o. split; [done|]. split; [done|]. split; [lia|].
        split; [intros j ? ? Hj; lia|].
        intros k' o' Hin. apply elem_of_cons in Hin as [[= -> ->]|Hin];
          [lia | by eapply Hall].
      * exists (Some k1, track_score votes k1). split; [done|]. right.
        exists (S i), k1, o1. cbn [snd] in Hlt.
        split; [done|]. split; [done|]. split; [lia|]. split.
        -- intros [|j] k' o' Hj Hlk; simpl in Hlk.
           ++ by inversion Hlk; subst.
           ++ eapply Hbefore; [|done]. lia.
        -- intros k' o' Hin. apply elem_of_cons in Hin as [[= -> ->]|Hin];
             [lia | by eapply Hall].
    + destruct (IH best Hsub')
        as (r & Hr & [[-> Hall]|(i & k1 & o1 & Hi & -> & Hlt & Hbefore & Hall)]).
      * exists best. split; [done|]. left. split; [done|].
        intros k' o' Hin. apply elem_of_cons in Hin as [[= -> ->]|Hin];
          [lia | by eapply Hall].
      * exists (Some k1, track_score votes k1). split; [done|]. right.
        exists (S i), k1, o1.
        split; [done|]. split; [done|]. split; [lia|]. split.
        -- intros [|j] k' o' Hj Hlk; simpl in Hlk.
           ++ inversion Hlk; subst. lia.
           ++ eapply Hbefore; [|done]. lia.
        -- intros k' o' Hin. apply elem_of_cons in Hin as [[= -> ->]|Hin];
             [lia | by eapply Hall].
Qed.

(** The matcher on a token stream: no vote gives [(None, 0)]; otherwise
    the result is the first track, in the iteration order of [votes],
    whose score is the largest. *)
Lemma match_hashes_spec table hashes :
  let votes := tally table hashes in
  (votes = [] ∧ match_hashes table hashes = Some (None, 0)) ∨
  ∃ tid,
    match_hashes table hashes = Some (Some tid, track_score votes tid) ∧
    tid ∈ dict_keys votes ∧
    1 <= track_score votes tid ∧
    (∀ tid', track_score votes tid' <= track_score votes tid) ∧
    (∀ tid', voted_before votes tid' tid →
       track_score votes tid' < track_score votes tid).
Proof.
  intros votes. pose proof (votes_ok_tally table hashes : votes_ok votes) as Hok.
  unfold match_hashes. fold votes.
  destruct (best_loop_spec votes votes (None, 0) Hok (λ _ H, H))
    as (r & Hr & [[-> Hall]|(i & k & o & Hi & -> & Hlt & Hbefore & Hall)]).
  - left. split; [|done]. destruct votes as [|[k o] rest] eqn:Hv; [done|].
    exfalso. rewrite <- Hv in *.
    assert (Hin : (k, o) ∈ votes) by (rewrite Hv; by left).
    destruct (item_score votes k o Hok Hin) as [_ Hpos].
    specialize (Hall k o Hin). simpl in Hall. lia.
  - right. exists k. cbn [snd] in Hlt.
    assert (Hin : (k, o) ∈ votes) by (apply list_elem_of_lookup; eauto).
    split; [done|]. split.
    { unfold dict_keys. apply list_elem_of_fmap. by exists (k, o). }
    split; [lia|]. split.
    + intros tid'. destruct (dict_get tid' votes) as [o'|] eqn:Hg.
      * eapply Hall, dict_get_Some_elem, Hg.
      * rewrite track_score_unvoted; [lia | by apply dict_get_None].
    + intros tid' (i' & j & Hij & Hi' & Hj).
      assert (Hki : dict_keys votes !! i = Some k).
      { unfold dict_keys. by rewrite list_lookup_fmap, Hi. }
      assert (j = i) as -> by (eapply NoDup_lookup; [apply Hok | done | done]).
      unfold dict_keys in Hi'. rewrite list_lookup_fmap in Hi'.
      destruct (votes !! i') as [[k' o']|] eqn:Hlk'; [|done].
      injection Hi' as ->. by eapply Hbefore.
Qed.

(** ** Inserting postings *)

Lemma insert_posting_lookup table track_id (q : Hash) h :
  default [] (insert_posting table track_id q !! h)
    = default [] (table !! h)
      ++ (if decide (q.1 = h) then [(track_id, q.2)] else []).
Proof.
  unfold insert_posting. destruct (decide (q.1 = h)) as [<-|Hne].
  - by rewrite lookup_insert_eq.
  - rewrite lookup_insert_ne by done. by rewrite app_nil_r.
Qed.

(** The posting list of a token after [add_track]'s loop: the old postings
    followed by one posting for each occurrence of the token, in order. *)
Lemma insert_hashes_lookup table track_id hashes h :
  default [] (insert_hashes table track_id hashes !! h)
    = default [] (table !! h)
      ++ ((λ q : Hash, (track_id, q.2)) <$> filter (λ q : Hash, q.1 = h) hashes).
Proof.
  unfold insert_hashes. revert table.
  induction hashes as [|q qs IH]; intros table; simpl.
  - by rewrite app_nil_r.
  - rewrite IH, insert_posting_lookup, filter_cons.
    destruct (decide (q.1 = h)); simpl; by rewrite <- app_assoc.
Qed.

Lemma lookup_Some_default {A} (table : gmap Z (list A)) h ps x :
  table !! h = Some ps → x ∈ ps → x ∈ default [] (table !! h).
Proof. by intros ->. Qed.

Lemma elem_of_default_lookup {A} (table : gmap Z (list A)) h x :
  x ∈ default [] (table !! h) → ∃ ps, table !! h = Some ps ∧ x ∈ ps.
Proof.
  destruct (table !! h) as [ps|]; simpl; [by eauto|]. intros H. inversion H.
Qed.

Lemma insert_hashes_new table track_id hashes h t :
  (h, t) ∈ hashes →
  (track_id, t) ∈ default [] (insert_hashes table track_id hashes !! h).
Proof.
  intros Hin. rewrite insert_hashes_lookup. apply elem_of_app. right.
  apply list_elem_of_fmap. exists (h, t). split; [done|].
  by apply list_elem_of_filter.
Qed.

Lemma insert_hashes_old table track_id hashes h tid t :
  (tid, t) ∈ default [] (insert_hashes table track_id hashes !! h) →
  (tid, t) ∈ default [] (table !! h) ∨ tid = track_id.
Proof.
  rewrite insert_hashes_lookup. intros [H|H]%elem_of_app; [by left|].
  right. apply list_elem_of_fmap in H as (q & [= -> _] & _). done.
Qed.

(** ** Which tracks receive votes *)

Lemma elem_of_foldl_see (l acc : list Z) x :
  x ∈ foldl see acc l ↔ x ∈ acc ∨ x ∈ l.
Proof.
  revert acc. induction l as [|y l IH]; intros acc; simpl.
  - split; [by left | intros [?|H]; [done | inversion H]].
  - rewrite IH. unfold see. destruct (decide (y ∈ acc)) as [Hy|Hy].
    + rewrite elem_of_cons. split; [tauto|].
      intros [?|[->|?]]; tauto.
    + rewrite elem_of_app, list_elem_of_singleton, elem_of_cons. tauto.
Qed.

Lemma voted_has_posting table hashes tid :
  tid ∈ dict_keys (tally table hashes) →
  ∃ h ps t, table !! h = Some ps ∧ (tid, t) ∈ ps.
Proof.
  rewrite dict_keys_tally. unfold first_seen, posting_stream.
  rewrite elem_of_foldl_see. intros [H|H]; [inversion H|].
  apply list_elem_of_bind in H as (q & H & _).
  apply list_elem_of_fmap in H as ([tid' t] & -> & H).
  apply elem_of_default_lookup in H as (ps & Hps & H). eauto.
Qed.

(** One vote at least in bin [0] of the track's own histogram for each
    token of a query that is itself in the index. *)
Lemma bin_count_self table hashes track_id :
  (∀ h t, (h, t) ∈ hashes → (track_id, t) ∈ default [] (table !! h)) →
  Z.of_nat (length hashes) <= bin_count table hashes track_id 0.
Proof.
  unfold bin_count. induction hashes as [|[h t] qs IH]; intros Hall.
  - simpl. lia.
  - cbn [foldr length].
    assert (Hin : (track_id, t) ∈ aligned table track_id 0 (h, t)).
    { unfold aligned. apply list_elem_of_filter. simpl.
      split; [split; [done | apply int64_sub_diag]|]. apply Hall. by left. }
    assert (1 <= Z.of_nat (length (aligned table track_id 0 (h, t)))).
    { destruct (aligned table track_id 0 (h, t)); [inversion Hin | simpl; lia]. }
    assert (Z.of_nat (length qs) <=
            foldr (λ q n, Z.of_nat (length (aligned table track_id 0 q)) + n) 0 qs).
    { apply IH. intros h' t' H'. apply Hall. by right. }
    lia.
Qed.

(** ** The engine *)

Section EngineFacts.

Context {File Meta : Type}.
Variable read_constellation : File → option (list Peak).
Variable sort_by_time : list Peak → list Peak.
Variable default_metadata : File → Meta.

Implicit Types (db : FingerprintDB Meta) (filepath : File).

(** The equations of the definitions, for a file that is read and for a
    file whose reading raises. *)

Lemma add_track_read db filepath meta peaks :
  read_constellation filepath = Some peaks →
  add_track read_constellation sort_by_time default_metadata db filepath meta
    = (Returned (_next_track_id db),
       mkDB (insert_hashes (hash_table db) (_next_track_id db)
               (generate_hashes sort_by_time peaks))
            (<[_next_track_id db := default (default_metadata filepath) meta]>
               (metadata db))
            (_next_track_id db + 1)).
Proof. intros H. unfold add_track, fingerprint_file. by rewrite H. Qed.

Lemma add_track_raised db filepath meta :
  read_constellation filepath = None →
  add_track read_constellation sort_by_time default_metadata db filepath meta
    = (Raised, mkDB (hash_table db) (metadata db) (_next_track_id db + 1)).
Proof. intros H. unfold add_track, fingerprint_file. by rewrite H. Qed.

Lemma recognise_read db filepath peaks :
  read_constellation filepath = Some peaks →
  recognise read_constellation sort_by_time db filepath
    = match match_hashes (hash_table db) (generate_hashes sort_by_time peaks) with
      | Some result => Returned result
      | None => Raised
      end.
Proof. intros H. unfold recognise, fingerprint_file. by rewrite H. Qed.

Lemma recognise_raised db filepath :
  read_constellation filepath = None →
  recognise read_constellation sort_by_time db filepath = Raised.
Proof. intros H. unfold recognise, fingerprint_file. by rewrite H. Qed.

Lemma add_tracks_cons db filepath meta calls :
  add_tracks read_constellation sort_by_time default_metadata db
      ((filepath, meta) :: calls)
    = let step :=
        add_track read_constellation sort_by_time default_metadata
          db filepath meta in
      let rest :=
        add_tracks read_constellation sort_by_time default_metadata
          step.2 calls in
      (step.1 :: rest.1, rest.2).
Proof.
  cbn [add_tracks].
  destruct (add_track _ _ _ db filepath meta) as [out db'].
  cbn [fst snd]. by destruct (add_tracks _ _ _ db' calls).
Qed.

Local Abbreviation add_track :=
  (add_track read_constellation sort_by_time default_metadata).
Local Abbreviation recognise :=
  (recognise (Meta := Meta) read_constellation sort_by_time).
Local Abbreviation add_tracks :=
  (add_tracks read_constellation sort_by_time default_metadata).
Local Abbreviation reachable :=
  (reachable read_constellation sort_by_time default_metadata).

(** Whatever the outcome, a call advances the counter by one and hands
    out the old value. *)
Lemma add_track_counter db filepath meta :
  _next_track_id (add_track db filepath meta).2 = _next_track_id db + 1 ∧
  ∀ id, (add_track db filepath meta).1 = Returned id → id = _next_track_id db.
Proof.
  destruct (read_constellation filepath) as [peaks|] eqn:Hr.
  - rewrite (add_track_read _ _ _ _ Hr). simpl. split; [done|]. by intros id [= <-].
  - rewrite (add_track_raised _ _ _ Hr). simpl. split; [done|]. by intros id [=].
Qed.

(** *** Track identifiers *)

Lemma add_tracks_ids db calls :
  length (add_tracks db calls).1 = length calls ∧
  _next_track_id (add_tracks db calls).2
    = _next_track_id db + Z.of_nat (length calls) ∧
  ∀ (n : nat) id, (add_tracks db calls).1 !! n = Some (Returned id) →
    id = _next_track_id db + Z.of_nat n.
Proof.
  revert db. induction calls as [|[filepath meta] calls IH]; intros db.
  - simpl. split; [done|]. split; [lia|]. intros n id H. by destruct n.
  - rewrite add_tracks_cons. cbn [fst snd length].
    destruct (IH (add_track db filepath meta).2) as (Hlen & Hnext & Hids).
    destruct (add_track_counter db filepath meta) as [Hc Hid].
    split; [by rewrite Hlen|]. split; [rewrite Hnext, Hc; lia|].
    intros [|n] id Hlk; simpl in Hlk.
    + injection Hlk as Hlk. rewrite (Hid _ Hlk). lia.
    + rewrite (Hids _ _ Hlk), Hc. lia.
Qed.

(** C7. Starting from a new index, the [n]-th call of [add_track]
    (counting from 0) that returns, returns [n]; so when every call
    succeeds the identifiers handed out are [0, 1, 2, ...] in insertion
    order, contiguous from 0.  In any run the identifiers returned are
    strictly increasing, hence never handed out twice. *)
Theorem track_ids_sequential calls :
  let outs := (add_tracks new_db calls).1 in
  (∀ (n : nat) id, outs !! n = Some (Returned id) → id = Z.of_nat n) ∧
  (Forall (λ out, out ≠ Raised) outs →
   outs = (λ n : nat, Returned (Z.of_nat n)) <$> seq 0 (length calls)) ∧
  (∀ (m n : nat) id id', (m < n)%nat →
     outs !! m = Some (Returned id) → outs !! n = Some (Returned id') →
     id < id').
Proof.
  intros outs.
  destruct (add_tracks_ids new_db calls) as (Hlen & _ & Hids).
  fold outs in Hlen, Hids. simpl in Hids.
  split; [exact Hids|]. split.
  - intros Hall. apply list_eq. intros n.
    rewrite list_lookup_fmap.
    destruct (outs !! n) as [out|] eqn:Hn.
    + assert (n < length calls)%nat as Hlt.
      { rewrite <- Hlen. by eapply lookup_lt_Some. }
      rewrite (proj2 (lookup_seq 0 (length calls) n n)) by done. simpl.
      rewrite Forall_forall in Hall.
      destruct out as [id|].
      * by rewrite (Hids _ _ Hn).
      * exfalso. eapply Hall; [|done]. apply list_elem_of_lookup. eauto.
    + apply lookup_ge_None in Hn. rewrite Hlen in Hn.
      rewrite (proj2 (lookup_ge_None (seq 0 (length calls)) n)); [done|].
      by rewrite length_seq.
  - intros m n id id' Hmn Hm Hn.
    rewrite (Hids _ _ Hm), (Hids _ _ Hn). lia.
Qed.

(** *** Postings and metadata *)

Lemma add_track_postings db filepath meta h tid t :
  (tid, t) ∈ default [] (hash_table (add_track db filepath meta).2 !! h) →
  (tid, t) ∈ default [] (hash_table db !! h) ∨
  is_Some (metadata (add_track db filepath meta).2 !! tid).
Proof.
  destruct (read_constellation filepath) as [peaks|] eqn:Hr.
  - rewrite (add_track_read _ _ _ _ Hr). simpl.
    intros [H| ->]%insert_hashes_old; [by left | right].
    rewrite lookup_insert_eq. by eauto.
  - rewrite (add_track_raised _ _ _ Hr). simpl. by left.
Qed.

Lemma add_track_metadata db filepath meta tid :
  is_Some (metadata db !! tid) →
  is_Some (metadata (add_track db filepath meta).2 !! tid).
Proof.
  destruct (read_constellation filepath) as [peaks|] eqn:Hr.
  - rewrite (add_track_read _ _ _ _ Hr). simpl. intros H.
    rewrite lookup_insert. case_decide; by eauto.
  - by rewrite (add_track_raised _ _ _ Hr).
Qed.

(** C8. In every state an index reaches from [FingerprintDB()] through
    calls of [add_track], the track identifier of every posting of every
    token is a key of the metadata map. *)
Theorem postings_have_metadata db :
  reachable db →
  ∀ h ps tid t,
    hash_table db !! h = Some ps → (tid, t) ∈ ps →
    is_Some (metadata db !! tid).
Proof.
  intros Hreach.
  assert (Hinv : ∀ h tid t,
    (tid, t) ∈ default [] (hash_table db !! h) → is_Some (metadata db !! tid)).
  { induction Hreach as [|db filepath meta Hreach IH]; intros h tid t Hin.
    - simpl in Hin. rewrite lookup_empty in Hin. inversion Hin.
    - apply add_track_postings in Hin as [Hin|Hin]; [|done].
      eapply add_track_metadata, IH, Hin. }
  intros h ps tid t Hps Hin. apply (Hinv h tid t). by rewrite Hps.
Qed.

(** *** The matcher *)

Lemma tally_no_match table hashes :
  (∀ h t, (h, t) ∈ hashes → table !! h = None ∨ table !! h = Some []) →
  tally table hashes = [].
Proof.
  unfold tally. generalize (@nil (Z * list (Z * Z))).
  induction hashes as [|[h t] qs IH]; intros votes Hall; [done|].
  cbn [foldl]. rewrite IH.
  - unfold tally_hash. simpl.
    by destruct (Hall h t (list_elem_of_here _ _)) as [-> | ->].
  - intros h' t' H'. apply (Hall h' t'). by right.
Qed.

(** C9. When no token of the query has a posting in the index, [votes]
    stays empty; whenever [votes] is empty, and so for every query
    against a new index, [recognise] returns [(None, 0)]. *)
Theorem recognise_no_match db filepath peaks :
  read_constellation filepath = Some peaks →
  let hashes := generate_hashes sort_by_time peaks in
  ((∀ h t, (h, t) ∈ hashes →
      hash_table db !! h = None ∨ hash_table db !! h = Some []) →
   tally (hash_table db) hashes = []) ∧
  (tally (hash_table db) hashes = [] →
   recognise db filepath = Returned (None, 0)) ∧
  recognise new_db filepath = Returned (None, 0).
Proof.
  intros Hr hashes.
  assert (Hempty : ∀ db', tally (hash_table db') hashes = [] →
            recognise db' filepath = Returned (None, 0)).
  { intros db' Hv. rewrite (recognise_read _ _ _ Hr). fold hashes.
    unfold match_hashes. by rewrite Hv. }
  split; [apply tally_no_match|]. split; [apply Hempty|].
  apply Hempty, tally_no_match. intros h t _. left. apply lookup_empty.
Qed.

(** C10. [recognise] raises only when reading the file does; otherwise
    it returns, and what it returns is [(None, 0)] or a track identifier
    with a score of at least 1. *)
Theorem recognise_result_shape db filepath :
  match recognise db filepath with
  | Raised => read_constellation filepath = None
  | Returned (None, score) => score = 0
  | Returned (Some tid, score) => 1 <= score
  end.
Proof.
  destruct (read_constellation filepath) as [peaks|] eqn:Hr.
  - rewrite (recognise_read _ _ _ Hr).
    destruct (match_hashes_spec (hash_table db)
                (generate_hashes sort_by_time peaks))
      as [[_ ->]|(tid & -> & _ & Hpos & _)]; done.
  - by rewrite (recognise_raised _ _ Hr).
Qed.

(** C2, as the code has it. [recognise] fills [votes[tid][offset]] with
    the number of (query token, posting) pairs of track [tid] whose
    anchors differ by [offset]; the score of a track is its largest bin;
    the pair returned has the largest score, and among tracks that tie
    for it the one that received its first vote earliest in the scan
    of the query tokens (which need not be the smallest identifier). *)
Theorem recognise_first_best db filepath peaks :
  read_constellation filepath = Some peaks →
  let hashes := generate_hashes sort_by_time peaks in
  let votes := tally (hash_table db) hashes in
  (∀ tid dt,
     vote_count votes tid dt = bin_count (hash_table db) hashes tid dt) ∧
  (∀ tid,
     (∃ dt, track_score votes tid = vote_count votes tid dt) ∧
     ∀ dt, vote_count votes tid dt <= track_score votes tid) ∧
  dict_keys votes = first_seen (posting_stream (hash_table db) hashes) ∧
  ((votes = [] ∧ recognise db filepath = Returned (None, 0)) ∨
   ∃ tid,
     recognise db filepath = Returned (Some tid, track_score votes tid) ∧
     tid ∈ dict_keys votes ∧
     (∀ tid', track_score votes tid' <= track_score votes tid) ∧
     (∀ tid', voted_before votes tid' tid →
        track_score votes tid' < track_score votes tid)).
Proof.
  intros Hr hashes votes.
  split; [intros tid dt; apply vote_count_tally|].
  split; [intros tid; apply track_score_max, votes_ok_tally|].
  split; [apply dict_keys_tally|].
  rewrite (recognise_read _ _ _ Hr). fold hashes.
  destruct (match_hashes_spec (hash_table db) hashes)
    as [[Hv ->]|(tid & -> & Hin & _ & Hmax & Hfirst)].
  - by left.
  - right. exists tid. done.
Qed.

(** C1, as the code has it.  After [add_track] of a recording that
    yields at least one token, assigned identifier [T], [recognise] on
    the same recording returns a track with a score that is at least
    the number of tokens, hence positive, and at least the score of
    every track; the own score of [T] is at least the number of tokens,
    and the track returned is [T] whenever every other track scores
    strictly less than [T]. *)
Theorem self_recognition db filepath meta peaks :
  read_constellation filepath = Some peaks →
  let hashes := generate_hashes sort_by_time peaks in
  hashes ≠ [] →
  let T := _next_track_id db in
  let db' := (add_track db filepath meta).2 in
  let votes := tally (hash_table db') hashes in
  (add_track db filepath meta).1 = Returned T ∧
  Z.of_nat (length hashes) <= track_score votes T ∧
  ∃ tid,
    recognise db' filepath = Returned (Some tid, track_score votes tid) ∧
    0 < track_score votes tid ∧
    Z.of_nat (length hashes) <= track_score votes tid ∧
    (∀ tid', track_score votes tid' <= track_score votes tid) ∧
    ((∀ tid', tid' ≠ T → track_score votes tid' < track_score votes T) →
     tid = T).
Proof.
  intros Hr hashes Hne T db' votes.
  assert (Hout : (add_track db filepath meta).1 = Returned T)
    by (by rewrite (add_track_read _ _ _ _ Hr)).
  assert (Htable : hash_table db' = insert_hashes (hash_table db) T hashes).
  { unfold db'. by rewrite (add_track_read _ _ _ _ Hr). }
  assert (Hself : Z.of_nat (length hashes) <= track_score votes T).
  { destruct (track_score_max votes T (votes_ok_tally _ _)) as [_ Hmax].
    specialize (Hmax 0). unfold votes in Hmax at 1.
    rewrite vote_count_tally in Hmax.
    assert (Hpost : ∀ h t, (h, t) ∈ hashes →
              (T, t) ∈ default [] (hash_table db' !! h)).
    { intros h t Hin. rewrite Htable. by apply insert_hashes_new. }
    pose proof (bin_count_self (hash_table db') hashes T Hpost). lia. }
  assert (Hlen : 0 < Z.of_nat (length hashes)).
  { destruct hashes; [done | simpl; lia]. }
  split; [done|]. split; [done|].
  rewrite (recognise_read _ _ _ Hr). fold hashes.
  destruct (match_hashes_spec (hash_table db') hashes)
    as [[Hv _]|(tid & -> & Hin & _ & Hmax & _)].
  - exfalso. fold votes in Hv.
    rewrite (track_score_unvoted votes T) in Hself; [lia|].
    rewrite Hv. intros H. inversion H.
  - fold votes in Hmax, Hin. exists tid. split; [done|].
    pose proof (Hmax T). split; [lia|]. split; [lia|]. split; [done|].
    intros Hstrict. destruct (decide (tid = T)) as [|Hne']; [done|].
    specialize (Hstrict tid Hne'). lia.
Qed.

(** In an index that holds no other track, the track itself is
    returned. *)
Lemma self_recognition_new filepath meta peaks :
  read_constellation filepath = Some peaks →
  generate_hashes sort_by_time peaks ≠ [] →
  ∃ score,
    recognise (add_track new_db filepath meta).2 filepath
      = Returned (Some 0, score) ∧
    Z.of_nat (length (generate_hashes sort_by_time peaks)) <= score.
Proof.
  intros Hr Hne.
  set (hashes := generate_hashes sort_by_time peaks) in *.
  set (db' := (add_track new_db filepath meta).2).
  assert (Htable : hash_table db' = insert_hashes ∅ 0 hashes).
  { unfold db'. by rewrite (add_track_read _ _ _ _ Hr). }
  assert (Hpost : ∀ h t, (h, t) ∈ hashes →
            (0, t) ∈ default [] (hash_table db' !! h)).
  { intros h t Hin. rewrite Htable. by apply insert_hashes_new. }
  pose proof (bin_count_self (hash_table db') hashes 0 Hpost) as Hself.
  rewrite <- vote_count_tally in Hself.
  destruct (track_score_max (tally (hash_table db') hashes) 0
              (votes_ok_tally _ _)) as [_ Hbin].
  specialize (Hbin 0).
  assert (Hlen : 0 < Z.of_nat (length hashes)).
  { destruct hashes; [done | simpl; lia]. }
  rewrite (recognise_read _ _ _ Hr). fold hashes.
  destruct (match_hashes_spec (hash_table db') hashes)
    as [[Hv _]|(tid & -> & Hin & _ & Hmax & _)].
  - exfalso. rewrite Hv in Hself. unfold vote_count in Hself.
    simpl in Hself. lia.
  - assert (tid = 0) as ->.
    { apply voted_has_posting in Hin as (h & ps & t & Hps & Ht).
      destruct (insert_hashes_old ∅ 0 hashes h tid t) as [Hold|Hnew];
        [by rewrite <- Htable, Hps | | done].
      rewrite lookup_empty in Hold. inversion Hold. }
    eexists. split; [done|]. lia.
Qed.

End EngineFacts.

Lemma add_tracks_reachable {File Meta : Type}
    (read_constellation : File → option (list Peak))
    (sort_by_time : list Peak → list Peak) (default_metadata : File → Meta)
    (db : FingerprintDB Meta) (calls : list (File * option Meta)) :
  reachable read_constellation sort_by_time default_metadata db →
  reachable read_constellation sort_by_time default_metadata
    (add_tracks read_constellation sort_by_time default_metadata db calls).2.
Proof.
  revert db. induction calls as [|[filepath meta] calls IH]; intros db Hr.
  - done.
  - rewrite add_tracks_cons. cbn [snd]. apply IH. by constructor.
Qed.

(** ** Persistence *)

Section PersistenceFacts.

Context {Meta Bytes : Type}.
Variable pickle_dumps : Pickled Meta → Bytes.
Variable pickle_loads : Bytes → option (Pickled Meta).

(** What [pickle] promises: an object that was dumped loads back as an
    equal object. *)
Hypothesis pickle_roundtrip : ∀ data, pickle_loads (pickle_dumps data) = Some data.

(** C6. Loading the file an index was saved to gives an index equal to
    it on the token map, the metadata map and the counter. *)
Theorem load_save_roundtrip (db : FingerprintDB Meta) filename disk :
  ∃ db',
    load pickle_loads filename (save pickle_dumps db filename disk) = Some db' ∧
    hash_table db' = hash_table db ∧
    metadata db' = metadata db ∧
    _next_track_id db' = _next_track_id db ∧
    db' = db.
Proof.
  exists db. unfold load, save.
  rewrite lookup_insert_eq. simpl. rewrite pickle_roundtrip. simpl.
  by destruct db.
Qed.

End PersistenceFacts.

(** ** The properties on synthetic recordings *)

Lemma load_save_roundtrip_witness :
  (∀ data, Synthetic.pickle_loads (Synthetic.pickle_dumps data) = Some data) ∧
  ∃ db',
    load Synthetic.pickle_loads "fingerprints.pkl"
      (save Synthetic.pickle_dumps Synthetic.two_tracks "fingerprints.pkl" ∅)
      = Some db' ∧
    hash_table db' = hash_table Synthetic.two_tracks ∧
    metadata db' = metadata Synthetic.two_tracks ∧
    _next_track_id db' = _next_track_id Synthetic.two_tracks ∧
    db' = Synthetic.two_tracks.
Proof.
  split; [reflexivity|].
  exact (load_save_roundtrip Synthetic.pickle_dumps Synthetic.pickle_loads
           (λ data, eq_refl) Synthetic.two_tracks "fingerprints.pkl" ∅).
Defined.

(** Three calls that all return. *)
Lemma track_ids_sequential_witness :
  Forall (λ out, out ≠ Raised)
    (Synthetic.add_tracks new_db
       [(Synthetic.track_a, None); (Synthetic.track_b, None);
        (Synthetic.single, None)]).1 ∧
  (Synthetic.add_tracks new_db
     [(Synthetic.track_a, None); (Synthetic.track_b, None);
      (Synthetic.single, None)]).1
    = [Returned 0; Returned 1; Returned 2].
Proof.
  assert (Hall : Forall (λ out, out ≠ Raised)
    (Synthetic.add_tracks new_db
       [(Synthetic.track_a, None); (Synthetic.track_b, None);
        (Synthetic.single, None)]).1).
  { vm_compute. repeat constructor; discriminate. }
  split; [exact Hall|].
  exact (proj1 (proj2 (track_ids_sequential Synthetic.read_constellation
    stable_sort_by_time Synthetic.default_metadata
    [(Synthetic.track_a, None); (Synthetic.track_b, None);
     (Synthetic.single, None)])) Hall).
Defined.

(** A call that raises has used up an identifier all the same. *)
Example raised_call_uses_an_id :
  (Synthetic.add_tracks new_db
     [(Synthetic.track_a, None); (Synthetic.Unreadable, None);
      (Synthetic.track_b, None)]).1
    = [Returned 0; Raised; Returned 2].
Proof. reflexivity. Qed.

Lemma postings_have_metadata_witness :
  reachable Synthetic.read_constellation stable_sort_by_time
    Synthetic.default_metadata Synthetic.two_tracks ∧
  hash_table Synthetic.two_tracks !! 12599297 = Some [(1, 0)] ∧
  (1, 0) ∈ [(1, 0)] ∧
  is_Some (metadata Synthetic.two_tracks !! 1).
Proof.
  assert (Hreach : reachable Synthetic.read_constellation stable_sort_by_time
            Synthetic.default_metadata Synthetic.two_tracks).
  { apply (add_tracks_reachable Synthetic.read_constellation
             stable_sort_by_time Synthetic.default_metadata new_db).
    constructor. }
  assert (Hlk : hash_table Synthetic.two_tracks !! 12599297 = Some [(1, 0)])
    by reflexivity.
  assert (Hin : ((1, 0) : Z * Z) ∈ [(1, 0)]) by constructor.
  split; [exact Hreach|]. split; [exact Hlk|]. split; [exact Hin|].
  exact (postings_have_metadata Synthetic.read_constellation
           stable_sort_by_time Synthetic.default_metadata Synthetic.two_tracks
           Hreach 12599297 [(1, 0)] 1 0 Hlk Hin).
Defined.

(** [track_b] shares no token with an index that holds [track_a] only. *)
Lemma recognise_no_match_witness :
  Synthetic.read_constellation Synthetic.track_b
    = Some [mkPeak 0 3; mkPeak 1 4] ∧
  ((∀ h t,
      (h, t) ∈ generate_hashes stable_sort_by_time [mkPeak 0 3; mkPeak 1 4] →
      hash_table (Synthetic.index_of [Synthetic.track_a]) !! h = None ∨
      hash_table (Synthetic.index_of [Synthetic.track_a]) !! h = Some []) →
   tally (hash_table (Synthetic.index_of [Synthetic.track_a]))
     (generate_hashes stable_sort_by_time [mkPeak 0 3; mkPeak 1 4]) = []) ∧
  (tally (hash_table (Synthetic.index_of [Synthetic.track_a]))
     (generate_hashes stable_sort_by_time [mkPeak 0 3; mkPeak 1 4]) = [] →
   Synthetic.recognise (Synthetic.index_of [Synthetic.track_a])
     Synthetic.track_b = Returned (None, 0)) ∧
  Synthetic.recognise new_db Synthetic.track_b = Returned (None, 0).
Proof.
  split; [reflexivity|].
  exact (recognise_no_match Synthetic.read_constellation stable_sort_by_time
           (Synthetic.index_of [Synthetic.track_a]) Synthetic.track_b
           [mkPeak 0 3; mkPeak 1 4] eq_refl).
Defined.

(** The query [b_then_a] against [two_tracks]. *)
Lemma recognise_first_best_witness :
  Synthetic.read_constellation Synthetic.b_then_a
    = Some [mkPeak 0 3; mkPeak 1 4; mkPeak 300 1; mkPeak 301 2] ∧
  ∃ tid,
    Synthetic.recognise Synthetic.two_tracks Synthetic.b_then_a
      = Returned (Some tid,
          track_score
            (Synthetic.votes_for Synthetic.two_tracks Synthetic.b_then_a) tid) ∧
    ∀ tid',
      track_score
        (Synthetic.votes_for Synthetic.two_tracks Synthetic.b_then_a) tid'
      <= track_score
           (Synthetic.votes_for Synthetic.two_tracks Synthetic.b_then_a) tid.
Proof.
  split; [reflexivity|].
  destruct (recognise_first_best Synthetic.read_constellation
              stable_sort_by_time Synthetic.two_tracks Synthetic.b_then_a
              [mkPeak 0 3; mkPeak 1 4; mkPeak 300 1; mkPeak 301 2] eq_refl)
    as (_ & _ & _ & [[Hv _]|(tid & Hrec & _ & Hmax & _)]).
  - discriminate Hv.
  - exists tid. split; [exact Hrec | exact Hmax].
Defined.

(** Against C2 as stated: tracks 0 and 1 both score 1 for the query
    [b_then_a], and [recognise] returns track 1, whose posting the scan
    meets first, not the smaller identifier 0. *)
Lemma recognise_tie_not_smallest_id :
  track_score (Synthetic.votes_for Synthetic.two_tracks Synthetic.b_then_a) 0
    = 1 ∧
  track_score (Synthetic.votes_for Synthetic.two_tracks Synthetic.b_then_a) 1
    = 1 ∧
  Synthetic.recognise Synthetic.two_tracks Synthetic.b_then_a
    = Returned (Some 1, 1).
Proof. repeat split; reflexivity. Qed.

(** [track_a] added to an index that holds [track_b]. *)
Lemma self_recognition_witness :
  Synthetic.read_constellation Synthetic.track_a
    = Some [mkPeak 0 1; mkPeak 1 2] ∧
  generate_hashes stable_sort_by_time [mkPeak 0 1; mkPeak 1 2] ≠ [] ∧
  (Synthetic.add_track (Synthetic.index_of [Synthetic.track_b])
     Synthetic.track_a None).1 = Returned 1 ∧
  ∃ tid score,
    Synthetic.recognise
      (Synthetic.add_track (Synthetic.index_of [Synthetic.track_b])
         Synthetic.track_a None).2 Synthetic.track_a
      = Returned (Some tid, score) ∧
    0 < score.
Proof.
  assert (Hne : generate_hashes stable_sort_by_time [mkPeak 0 1; mkPeak 1 2]
                  ≠ []) by discriminate.
  split; [reflexivity|]. split; [exact Hne|].
  destruct (self_recognition Synthetic.read_constellation stable_sort_by_time
              Synthetic.default_metadata
              (Synthetic.index_of [Synthetic.track_b]) Synthetic.track_a None
              [mkPeak 0 1; mkPeak 1 2] eq_refl Hne)
    as (Hout & _ & tid & Hrec & Hpos & _).
  split; [exact Hout|]. eexists tid, _. split; [exact Hrec | exact Hpos].
Defined.

(** Against C1 as stated.  A silent recording yields no token, and
    recognising it returns no track and score 0.  A recording added a
    second time is recognised as its older copy, which ties with it.  A
    recording whose token an older track holds twice is recognised as
    that track, which scores 2 against its own 1. *)
Lemma self_recognition_fails :
  ((Synthetic.add_track new_db Synthetic.silence None).1 = Returned 0 ∧
   Synthetic.recognise (Synthetic.add_track new_db Synthetic.silence None).2
     Synthetic.silence = Returned (None, 0)) ∧
  ((Synthetic.add_track (Synthetic.index_of [Synthetic.single])
      Synthetic.single None).1 = Returned 1 ∧
   Synthetic.recognise
     (Synthetic.add_track (Synthetic.index_of [Synthetic.single])
        Synthetic.single None).2 Synthetic.single = Returned (Some 0, 1)) ∧
  ((Synthetic.add_track (Synthetic.index_of [Synthetic.doubled])
      Synthetic.single None).1 = Returned 1 ∧
   Synthetic.recognise
     (Synthetic.add_track (Synthetic.index_of [Synthetic.doubled])
        Synthetic.single None).2 Synthetic.single = Returned (Some 0, 2) ∧
   track_score
     (Synthetic.votes_for
        (Synthetic.add_track (Synthetic.index_of [Synthetic.doubled])
           Synthetic.single None).2 Synthetic.single) 1 = 1).
Proof. repeat split; reflexivity. Qed.

(** * Further properties of the hasher *)

Lemma pack_hash_range a b d : 0 <= pack_hash a b d < 2 ^ 32.
Proof.
  rewrite pack_hash_sum.
  pose proof (Z.mod_pos_bound a 1024). pose proof (Z.mod_pos_bound b 1024).
  pose proof (Z.mod_pos_bound d 4096). lia.
Qed.

(** X1. Every token the hasher emits is an unsigned 32-bit value. *)
Theorem tokens_are_32_bit sort_by_time fan_value min_time_delta max_time_delta
    peaks :
  Forall (λ q : Z * Z, 0 <= q.1 < 2 ^ 32)
    (generate_hashes_with sort_by_time fan_value min_time_delta max_time_delta
       peaks).
Proof.
  apply Forall_forall. intros [h t] Hin.
  apply generate_hashes_with_emits in Hin as (anchor & target & _ & _ & -> & _).
  apply pack_hash_range.
Qed.

(** X2. Two triples get the same token exactly when their frequency bins
    agree modulo 1024 and their time deltas agree modulo 4096; so bins
    that differ by 1024, both of which a 4096-sample window has, are not
    told apart. *)
Theorem pack_hash_eq_iff a b d a' b' d' :
  pack_hash a b d = pack_hash a' b' d' ↔
  a mod 1024 = a' mod 1024 ∧ b mod 1024 = b' mod 1024 ∧
  d mod 4096 = d' mod 4096.
Proof.
  split.
  - intros Heq.
    pose proof (pack_hash_anchor a b d) as Ha.
    pose proof (pack_hash_target a b d) as Hb.
    pose proof (pack_hash_dt a b d) as Hd.
    rewrite Heq, pack_hash_anchor in Ha. rewrite Heq, pack_hash_target in Hb.
    rewrite Heq, pack_hash_dt in Hd.
    rewrite !land_mask10 in Ha, Hb. rewrite !land_mask12 in Hd. done.
  - intros (Ha & Hb & Hd). rewrite !pack_hash_sum. by rewrite Ha, Hb, Hd.
Qed.

Section HasherMore.

Variable sort_by_time : list Peak → list Peak.
Variable fan_value : nat.
Variable min_time_delta max_time_delta : Z.

Lemma fan_loop_length peaks i anchor js :
  (length (fan_loop min_time_delta max_time_delta peaks i anchor js)
     ≤ length js)%nat.
Proof.
  induction js as [|j js IH]; simpl; [done|].
  destruct (peaks !! (i + j)%nat) as [target|]; [|simpl; lia].
  destruct (_ <? _); [lia|]. destruct (_ >? _); simpl; lia.
Qed.

Lemma anchor_loop_length peaks is_ :
  (length (anchor_loop fan_value min_time_delta max_time_delta peaks is_)
     ≤ fan_value * length is_)%nat.
Proof.
  induction is_ as [|i is_ IH]; simpl; [lia|].
  destruct (peaks !! i) as [anchor|]; [|lia].
  rewrite length_app.
  pose proof (fan_loop_length peaks i anchor (seq 1 fan_value)) as Hf.
  rewrite length_seq in Hf. lia.
Qed.

(** X4. No anchor is paired with more than [fan_value] targets: the hasher
    emits at most [fan_value] tokens per peak. *)
Theorem token_count_bound peaks :
  sorts_by_time sort_by_time →
  (length (generate_hashes_with sort_by_time fan_value
             min_time_delta max_time_delta peaks)
     ≤ fan_value * length peaks)%nat.
Proof.
  intros [Hperm _]. unfold generate_hashes_with. cbv zeta.
  pose proof (anchor_loop_length (sort_by_time peaks)
                (seq 0 (length (sort_by_time peaks)))) as H.
  rewrite length_seq in H. rewrite <- (Permutation_length (Hperm peaks)). exact H.
Qed.

(** X3. A constellation of fewer than two peaks yields no token. *)
Theorem few_peaks_no_tokens peaks :
  sorts_by_time sort_by_time → (length peaks < 2)%nat →
  generate_hashes_with sort_by_time fan_value min_time_delta max_time_delta
    peaks = [].
Proof.
  intros [Hperm _] Hlen. unfold generate_hashes_with. cbv zeta.
  rewrite <- (Permutation_length (Hperm peaks)) in Hlen.
  destruct (sort_by_time peaks) as [|p [|q l]]; [done | | simpl in Hlen; lia].
  simpl. destruct fan_value; done.
Qed.

(** The inner loop reaches [j] when no earlier target is missing or too
    late, and emits the pair when its delta is within the bounds. *)
Lemma fan_loop_complete peaks i anchor target (s n j : nat) :
  (s ≤ j < s + n)%nat →
  peaks !! (i + j)%nat = Some target →
  (∀ j' : nat, (s ≤ j' < j)%nat →
     ∃ tg, peaks !! (i + j')%nat = Some tg ∧
       Int64.sub (pk_time tg) (pk_time anchor) <= max_time_delta) →
  min_time_delta <= Int64.sub (pk_time target) (pk_time anchor)
    <= max_time_delta →
  (pack_hash (pk_freq anchor) (pk_freq target)
     (Int64.sub (pk_time target) (pk_time anchor)), pk_time anchor)
    ∈ fan_loop min_time_delta max_time_delta peaks i anchor (seq s n).
Proof.
  revert s. induction n as [|n IH]; intros s Hj Hlk Hbefore Hdt; [lia|].
  cbn [seq fan_loop].
  destruct (decide (s = j)) as [->|Hne].
  - rewrite Hlk.
    destruct (Z.ltb_spec (Int64.sub (pk_time target) (pk_time anchor))
                min_time_delta); [lia|].
    destruct (Z.gtb_spec (Int64.sub (pk_time target) (pk_time anchor))
                max_time_delta); [lia|].
    by left.
  - destruct (Hbefore s) as (tg & Htg & Hle); [lia|]. rewrite Htg.
    assert (Hrest : (pack_hash (pk_freq anchor) (pk_freq target)
              (Int64.sub (pk_time target) (pk_time anchor)), pk_time anchor)
              ∈ fan_loop min_time_delta max_time_delta peaks i anchor
                  (seq (S s) n)).
    { apply IH; [lia | done | | done].
      intros j' Hj'. apply Hbefore. lia. }
    destruct (_ <? _); [done|].
    destruct (Z.gtb_spec (Int64.sub (pk_time tg) (pk_time anchor))
                max_time_delta); [lia|].
    by right.
Qed.

Lemma anchor_loop_complete peaks is_ (i : nat) anchor q :
  i ∈ is_ → peaks !! i = Some anchor →
  q ∈ fan_loop min_time_delta max_time_delta peaks i anchor (seq 1 fan_value) →
  q ∈ anchor_loop fan_value min_time_delta max_time_delta peaks is_.
Proof.
  intros Hi Hlk Hq. induction is_ as [|i0 is_ IH]; [inversion Hi|].
  cbn [anchor_loop]. apply elem_of_cons in Hi as [<-|Hi].
  - rewrite Hlk. apply elem_of_app. by left.
  - destruct (peaks !! i0); [apply elem_of_app; right|]; by apply IH.
Qed.

(** X5. On a sorted [int64] array the hasher misses no pair: an anchor and
    any of the [fan_value] rows after it whose time index is at most
    [max_time_delta] later give a token, whenever [min_time_delta] is not
    positive and [max_time_delta] is a 64-bit value. *)
Theorem hasher_emits_every_pair peaks (i j : nat) anchor target :
  sorts_by_time sort_by_time → Forall int64_peak peaks →
  min_time_delta <= 0 → max_time_delta <= Int64.max_int →
  (1 ≤ j ≤ fan_value)%nat →
  sort_by_time peaks !! i = Some anchor →
  sort_by_time peaks !! (i + j)%nat = Some target →
  pk_time target - pk_time anchor <= max_time_delta →
  (pack_hash (pk_freq anchor) (pk_freq target)
     (pk_time target - pk_time anchor), pk_time anchor)
    ∈ generate_hashes_with sort_by_time fan_value
        min_time_delta max_time_delta peaks.
Proof.
  intros [Hperm Hsorted] Hpeaks Hmin Hmax Hj Hi Hij Hdt.
  set (l := sort_by_time peaks) in *.
  assert (Hle : ∀ (k : nat) p, (i < k)%nat → l !! k = Some p →
            pk_time anchor <= pk_time p).
  { intros k p Hk Hp.
    apply (sorted_lookup_time_le l i k anchor p); [apply Hsorted | done..]. }
  assert (Hmono : ∀ (k k' : nat) p p', (k < k')%nat → l !! k = Some p →
            l !! k' = Some p' → pk_time p <= pk_time p').
  { intros k k' p p' Hk Hp Hp'.
    apply (sorted_lookup_time_le l k k' p p'); [apply Hsorted | done..]. }
  assert (Hsub : ∀ (k : nat) p, (i < k ≤ i + j)%nat → l !! k = Some p →
            Int64.sub (pk_time p) (pk_time anchor) = pk_time p - pk_time anchor ∧
            0 <= pk_time p - pk_time anchor <= max_time_delta).
  { intros k p Hk Hp.
    assert (pk_time anchor <= pk_time p) by (apply (Hle k); [lia | done]).
    assert (pk_time p <= pk_time target).
    { destruct (decide (k = (i + j)%nat)) as [->|Hne].
      - rewrite Hij in Hp. injection Hp as ->. lia.
      - apply (Hmono k (i + j)%nat); [lia | done | done]. }
    split; [|lia]. unfold Int64.sub. apply int64_wrap_small.
    unfold Int64.in_range, Int64.min_int, Int64.max_int in *. lia. }
  destruct (Hsub (i + j)%nat target) as [Heq Hrange]; [lia | done |].
  rewrite <- Heq. unfold generate_hashes_with. cbv zeta. fold l.
  apply (anchor_loop_complete l _ i anchor); [|done|].
  { apply elem_of_seq. apply lookup_lt_Some in Hi. lia. }
  apply (fan_loop_complete l i anchor target 1 fan_value j);
    [lia | done | | lia].
  intros j' Hj'.
  destruct (lookup_lt_is_Some_2 l (i + j')%nat) as [tg Htg].
  { apply lookup_lt_Some in Hij. lia. }
  exists tg. split; [done|].
  destruct (Hsub (i + j')%nat tg) as [Heq' Hr']; [lia | done |]. lia.
Qed.

End HasherMore.

(** * Further properties of the index and the matcher *)

Lemma filter_all_true {A} (P : A → Prop) `{∀ x, Decision (P x)} (l : list A) :
  (∀ x, x ∈ l → P x) → filter P l = l.
Proof.
  induction l as [|x l IH]; intros Hall; [done|].
  rewrite filter_cons_True by (apply Hall; by left).
  f_equal. apply IH. intros y Hy. apply Hall. by right.
Qed.

Lemma filter_all_false {A} (P : A → Prop) `{∀ x, Decision (P x)} (l : list A) :
  (∀ x, x ∈ l → ¬ P x) → filter P l = [].
Proof.
  induction l as [|x l IH]; intros Hall; [done|].
  rewrite filter_cons_False by (apply Hall; by left).
  apply IH. intros y Hy. apply Hall. by right.
Qed.

(** One vote at least in bin [delta] for each token of a query whose
    tokens all occur in the track [delta] later. *)
Lemma bin_count_aligned table hashes track_id delta :
  (∀ h t, (h, t) ∈ hashes →
     ∃ t', (track_id, t') ∈ default [] (table !! h) ∧ Int64.sub t' t = delta) →
  Z.of_nat (length hashes) <= bin_count table hashes track_id delta.
Proof.
  unfold bin_count. induction hashes as [|[h t] qs IH]; intros Hall.
  - simpl. lia.
  - cbn [foldr length].
    destruct (Hall h t) as (t' & Hin & Hd); [by left|].
    assert (Hal : (track_id, t') ∈ aligned table track_id delta (h, t)).
    { unfold aligned. apply list_elem_of_filter. simpl. done. }
    assert (1 <= Z.of_nat (length (aligned table track_id delta (h, t)))).
    { destruct (aligned table track_id delta (h, t)); [inversion Hal | simpl; lia]. }
    assert (Z.of_nat (length qs) <=
            foldr (λ q n, Z.of_nat (length (aligned table track_id delta q)) + n)
              0 qs).
    { apply IH. intros h0 t0 H0. apply (Hall h0 t0). by right. }
    lia.
Qed.

(** A bin of a track holds no more votes than the scan met postings of
    that track. *)
Lemma bin_count_le_stream table hashes track_id dt :
  bin_count table hashes track_id dt
    <= Z.of_nat (length (filter (λ x, x = track_id)
                           (posting_stream table hashes))).
Proof.
  unfold bin_count, posting_stream.
  induction hashes as [|q qs IH]; [simpl; lia|].
  rewrite bind_cons, filter_app, length_app. cbn [foldr].
  assert (Hq : (length (aligned table track_id dt q)
                ≤ length (filter (λ x, x = track_id)
                            (default [] (table !! q.1)).*1))%nat).
  { unfold aligned. induction (default [] (table !! q.1)) as [|m ms IHm];
      [done|].
    rewrite filter_cons. csimpl. rewrite (filter_cons (λ x, x = track_id)).
    destruct (decide (m.1 = track_id ∧ Int64.sub m.2 q.2 = dt)) as [[Hm _]|Hn].
    - rewrite decide_True by done. simpl. lia.
    - destruct (decide (m.1 = track_id)); simpl; lia. }
  lia.
Qed.

(** A track with a vote has a posting under a token of the query. *)
Lemma voted_shares_token table hashes tid :
  tid ∈ dict_keys (tally table hashes) →
  ∃ h t t', (h, t) ∈ hashes ∧ (tid, t') ∈ default [] (table !! h).
Proof.
  rewrite dict_keys_tally. unfold first_seen, posting_stream.
  rewrite elem_of_foldl_see. intros [H|H]; [inversion H|].
  apply list_elem_of_bind in H as ([h t] & H & Hq).
  apply list_elem_of_fmap in H as ([tid' t'] & -> & H). eauto.
Qed.

Section EngineMore.

Context {File Meta : Type}.
Variable read_constellation : File → option (list Peak).
Variable sort_by_time : list Peak → list Peak.
Variable default_metadata : File → Meta.

Implicit Types (db : FingerprintDB Meta) (filepath : File).

Local Abbreviation add_track :=
  (add_track read_constellation sort_by_time default_metadata).
Local Abbreviation recognise :=
  (recognise (Meta := Meta) read_constellation sort_by_time).
Local Abbreviation reachable :=
  (reachable read_constellation sort_by_time default_metadata).

Lemma add_track_table db filepath meta :
  hash_table (add_track db filepath meta).2
    = match read_constellation filepath with
      | Some peaks =>
          insert_hashes (hash_table db) (_next_track_id db)
            (generate_hashes sort_by_time peaks)
      | None => hash_table db
      end.
Proof.
  destruct (read_constellation filepath) as [peaks|] eqn:Hr.
  - by rewrite (add_track_read _ _ _ _ _ _ _ Hr).
  - by rewrite (add_track_raised _ _ _ _ _ _ Hr).
Qed.

(** X6. [add_track] only appends: under every token the postings that were
    there stay, in their order, and are followed by one posting of the
    new identifier for each occurrence of the token in the track, in the
    order of emission; a call that raises adds nothing. *)
Theorem add_track_appends db filepath meta h :
  default [] (hash_table (add_track db filepath meta).2 !! h)
    = default [] (hash_table db !! h)
      ++ match read_constellation filepath with
         | Some peaks =>
             (λ q : Z * Z, (_next_track_id db, q.2))
               <$> filter (λ q : Z * Z, q.1 = h)
                     (generate_hashes sort_by_time peaks)
         | None => []
         end.
Proof.
  destruct (read_constellation filepath) as [peaks|] eqn:Hr.
  - rewrite (add_track_read _ _ _ _ _ _ _ Hr). cbn [snd hash_table].
    apply insert_hashes_lookup.
  - rewrite (add_track_raised _ _ _ _ _ _ Hr). cbn [snd hash_table].
    by rewrite app_nil_r.
Qed.

Lemma add_track_metadata_lookup db filepath meta tid :
  metadata (add_track db filepath meta).2 !! tid
    = match read_constellation filepath with
      | Some _ =>
          if decide (_next_track_id db = tid)
          then Some (default (default_metadata filepath) meta)
          else metadata db !! tid
      | None => metadata db !! tid
      end.
Proof.
  destruct (read_constellation filepath) as [peaks|] eqn:Hr.
  - rewrite (add_track_read _ _ _ _ _ _ _ Hr). cbn [snd metadata].
    apply lookup_insert.
  - by rewrite (add_track_raised _ _ _ _ _ _ Hr).
Qed.

Lemma reachable_ids db : reachable db → ids_in_range db.
Proof.
  induction 1 as [|db filepath meta Hreach (Hnext & Hmeta & Hpost)].
  - split; [done|]. split.
    + intros tid [m Hm]. cbn in Hm. by rewrite lookup_empty in Hm.
    + intros h tid t Hin. cbn in Hin. rewrite lookup_empty in Hin.
      inversion Hin.
  - destruct (add_track_counter read_constellation sort_by_time
                default_metadata db filepath meta) as [Hc _].
    split; [lia|]. split.
    + intros tid. rewrite add_track_metadata_lookup, Hc.
      destruct (read_constellation filepath).
      * case_decide as Heq; [subst; lia|].
        intros H. specialize (Hmeta _ H). lia.
      * intros H. specialize (Hmeta _ H). lia.
    + intros h tid t. rewrite add_track_table, Hc.
      destruct (read_constellation filepath).
      * intros [Hin| ->]%insert_hashes_old; [|lia].
        specialize (Hpost _ _ _ Hin). lia.
      * intros Hin. specialize (Hpost _ _ _ Hin). lia.
Qed.

(** X7. In every state an index reaches, the counter is not negative and
    every identifier in use, as a metadata key or in a posting, lies
    between 0 and the counter; so the identifier the next [add_track]
    returns is new: it has no metadata and no posting yet. *)
Theorem reachable_ids_in_range db :
  reachable db →
  ids_in_range db ∧
  ∀ filepath meta T,
    (add_track db filepath meta).1 = Returned T →
    metadata db !! T = None ∧
    ∀ h t, (T, t) ∉ default [] (hash_table db !! h).
Proof.
  intros Hreach. pose proof (reachable_ids db Hreach) as Hids.
  split; [exact Hids|]. destruct Hids as (_ & Hmeta & Hpost).
  intros filepath meta T HT.
  destruct (add_track_counter read_constellation sort_by_time
              default_metadata db filepath meta) as [_ Hid].
  rewrite (Hid T HT). split.
  - destruct (metadata db !! _next_track_id db) as [m|] eqn:Hm; [|done].
    assert (Hsome : is_Some (metadata db !! _next_track_id db))
      by (by rewrite Hm).
    specialize (Hmeta _ Hsome). lia.
  - intros h t Hin. specialize (Hpost _ _ _ Hin). lia.
Qed.

(** X8. In a reachable index [add_track] never touches the metadata of a
    track that is already there, and a call that returns stores the
    metadata it was given (the default made from the path when none was
    given) under the identifier it returns. *)
Theorem add_track_metadata_kept db filepath meta :
  reachable db →
  (∀ tid, is_Some (metadata db !! tid) →
     metadata (add_track db filepath meta).2 !! tid = metadata db !! tid) ∧
  (∀ T, (add_track db filepath meta).1 = Returned T →
     metadata (add_track db filepath meta).2 !! T
       = Some (default (default_metadata filepath) meta)).
Proof.
  intros (Hnext & Hmeta & _)%reachable_ids. split.
  - intros tid Hsome. rewrite add_track_metadata_lookup.
    destruct (read_constellation filepath); [|done].
    case_decide as Heq; [|done]. specialize (Hmeta _ Hsome). lia.
  - intros T HT. rewrite add_track_metadata_lookup.
    destruct (read_constellation filepath) as [peaks|] eqn:Hr.
    + rewrite (add_track_read _ _ _ _ _ _ _ Hr) in HT. injection HT as <-.
      by rewrite decide_True.
    + by rewrite (add_track_raised _ _ _ _ _ _ Hr) in HT.
Qed.

(** X9. After [add_track] of a readable file on a reachable index, the
    postings of the new identifier under a token are exactly the anchor
    times at which the track emits that token, in the order of
    emission. *)
Theorem new_track_postings db filepath meta peaks h :
  reachable db → read_constellation filepath = Some peaks →
  filter (λ m : Z * Z, m.1 = _next_track_id db)
    (default [] (hash_table (add_track db filepath meta).2 !! h))
    = (λ q : Z * Z, (_next_track_id db, q.2))
        <$> filter (λ q : Z * Z, q.1 = h) (generate_hashes sort_by_time peaks).
Proof.
  intros (_ & _ & Hpost)%reachable_ids Hr.
  rewrite add_track_table, Hr, insert_hashes_lookup, filter_app.
  rewrite (filter_all_false _ (default [] (hash_table db !! h))).
  - apply filter_all_true. intros m Hm.
    by apply list_elem_of_fmap in Hm as (q & -> & _).
  - intros [tid t] Hin Heq. simpl in Heq. subst tid.
    specialize (Hpost _ _ _ Hin). lia.
Qed.

Lemma reachable_posting_metadata db h tid t :
  reachable db → (tid, t) ∈ default [] (hash_table db !! h) →
  is_Some (metadata db !! tid).
Proof.
  intros Hreach. revert h tid t.
  induction Hreach as [|db filepath meta Hreach IH]; intros h tid t Hin.
  - cbn in Hin. rewrite lookup_empty in Hin. inversion Hin.
  - apply (add_track_postings read_constellation sort_by_time default_metadata)
      in Hin as [Hin|Hin]; [|done].
    eapply add_track_metadata, IH, Hin.
Qed.

Lemma recognise_voted db filepath peaks tid score :
  read_constellation filepath = Some peaks →
  recognise db filepath = Returned (Some tid, score) →
  tid ∈ dict_keys (tally (hash_table db)
                     (generate_hashes sort_by_time peaks)).
Proof.
  intros Hr. rewrite (recognise_read _ _ _ _ _ Hr).
  destruct (match_hashes_spec (hash_table db)
              (generate_hashes sort_by_time peaks))
    as [[_ ->]|(tid' & -> & Hin & _)]; [done|].
  by intros [= <- _].
Qed.

(** X10. [recognise] never names a track that shares no token with the
    query: the track returned has a posting under one of the query's
    tokens. *)
Theorem recognised_shares_token db filepath peaks tid score :
  read_constellation filepath = Some peaks →
  recognise db filepath = Returned (Some tid, score) →
  ∃ h t t',
    (h, t) ∈ generate_hashes sort_by_time peaks ∧
    (tid, t') ∈ default [] (hash_table db !! h).
Proof.
  intros Hr Hrec. apply voted_shares_token.
  by eapply recognise_voted.
Qed.

(** X11. On a reachable index the identifier [recognise] returns is a key
    of the metadata map (so looking its metadata up cannot fail) and lies
    below the counter. *)
Theorem recognised_has_metadata db filepath tid score :
  reachable db →
  recognise db filepath = Returned (Some tid, score) →
  is_Some (metadata db !! tid) ∧ 0 <= tid < _next_track_id db.
Proof.
  intros Hreach Hrec.
  destruct (read_constellation filepath) as [peaks|] eqn:Hr.
  - destruct (voted_shares_token _ _ _
                (recognise_voted db filepath peaks tid score Hr Hrec))
      as (h & t & t' & _ & Hin).
    split; [by eapply reachable_posting_metadata|].
    destruct (reachable_ids db Hreach) as (_ & _ & Hpost).
    by eapply Hpost.
  - by rewrite (recognise_raised _ _ _ _ Hr) in Hrec.
Qed.

(** X12. A query all of whose tokens occur in track [T], each [delta]
    later than in the query, gives [T] one vote per token in bin [delta]:
    the score of [T], and so the score returned, is at least the number
    of tokens of the query. *)
Theorem aligned_query_score db filepath peaks T delta :
  read_constellation filepath = Some peaks →
  let hashes := generate_hashes sort_by_time peaks in
  let votes := tally (hash_table db) hashes in
  hashes ≠ [] →
  (∀ h t, (h, t) ∈ hashes →
     ∃ t', (T, t') ∈ default [] (hash_table db !! h) ∧
           Int64.sub t' t = delta) →
  Z.of_nat (length hashes) <= vote_count votes T delta ∧
  vote_count votes T delta <= track_score votes T ∧
  ∃ tid,
    recognise db filepath = Returned (Some tid, track_score votes tid) ∧
    track_score votes T <= track_score votes tid.
Proof.
  intros Hr hashes votes Hne Hall.
  assert (Hbin : Z.of_nat (length hashes) <= vote_count votes T delta).
  { unfold votes. rewrite vote_count_tally. by apply bin_count_aligned. }
  destruct (track_score_max votes T (votes_ok_tally _ _)) as [_ Hmax].
  split; [done|]. split; [apply Hmax|].
  rewrite (recognise_read _ _ _ _ _ Hr). fold hashes.
  destruct (match_hashes_spec (hash_table db) hashes)
    as [[Hv _]|(tid & -> & _ & _ & Hbest & _)].
  - exfalso. fold votes in Hv. rewrite Hv in Hbin.
    unfold vote_count in Hbin. simpl in Hbin.
    destruct hashes; [done | simpl in Hbin; lia].
  - exists tid. split; [done | apply Hbest].
Qed.

(** X13. The score [recognise] returns is at most the number of postings
    of the returned track that the scan of the query's tokens meets. *)
Theorem score_upper_bound db filepath peaks tid score :
  read_constellation filepath = Some peaks →
  recognise db filepath = Returned (Some tid, score) →
  score <= Z.of_nat (length (filter (λ x, x = tid)
             (posting_stream (hash_table db)
                (generate_hashes sort_by_time peaks)))).
Proof.
  intros Hr. rewrite (recognise_read _ _ _ _ _ Hr).
  destruct (match_hashes_spec (hash_table db)
              (generate_hashes sort_by_time peaks))
    as [[_ ->]|(tid' & -> & _)]; [done|].
  intros [= <- <-].
  destruct (track_score_max (tally (hash_table db)
              (generate_hashes sort_by_time peaks)) tid'
              (votes_ok_tally _ _)) as [[dt ->] _].
  rewrite vote_count_tally. apply bin_count_le_stream.
Qed.

End EngineMore.

(** * The callers *)

Section BuildDbFacts.

Context {File Bytes : Type}.
Variable read_constellation : File → option (list Peak).
Variable sort_by_time : list Peak → list Peak.
Variable default_metadata : File → gmap string string.
Variable pickle_dumps : Pickled (gmap string string) → Bytes.
Variable pickle_loads : Bytes → option (Pickled (gmap string string)).
Variable sorted : list File → list File.
Variable title_of rel_path_of : File → string.

Local Abbreviation track_metadata :=
  (BuildDb.track_metadata title_of rel_path_of).
Local Abbreviation add_all :=
  (BuildDb.add_all read_constellation sort_by_time default_metadata
     title_of rel_path_of).
Local Abbreviation build_main :=
  (BuildDb.main read_constellation sort_by_time default_metadata pickle_dumps
     sorted title_of rel_path_of).
Local Abbreviation reachable :=
  (reachable read_constellation sort_by_time default_metadata).


(** When the loop returns, the files got the identifiers from the counter
    on, each with its own metadata, and nothing else changed in the
    metadata. *)
Lemma add_all_returned db paths db' :
  add_all db paths = Returned db' →
  _next_track_id db' = _next_track_id db + Z.of_nat (length paths) ∧
  (reachable db → reachable db') ∧
  (∀ (i : nat) path, paths !! i = Some path →
     metadata db' !! (_next_track_id db + Z.of_nat i)
       = Some (track_metadata path)) ∧
  (∀ tid, tid < _next_track_id db ∨
          _next_track_id db + Z.of_nat (length paths) <= tid →
     metadata db' !! tid = metadata db !! tid).
Proof.
  revert db. induction paths as [|path paths IH]; intros db.
  - intros [= <-]. simpl. split; [lia|]. split; [done|]. split; [|done].
    intros i p Hp. by rewrite lookup_nil in Hp.
  - cbn [BuildDb.add_all].
    destruct (read_constellation path) as [peaks|] eqn:Hr.
    2: { by rewrite (add_track_raised _ _ _ _ _ _ Hr). }
    pose proof (add_track_read read_constellation sort_by_time
                  default_metadata db path (Some (track_metadata path))
                  peaks Hr) as Hadd.
    destruct (add_track _ _ _ db path _) as [out db1] eqn:Hstep.
    injection Hadd as -> Hdb1. intros Hrest.
    destruct (IH db1 Hrest) as (Hnext & Hreach & Hnew & Hold).
    assert (Hn1 : _next_track_id db1 = _next_track_id db + 1)
      by (by rewrite Hdb1).
    split; [rewrite Hnext, Hn1; cbn [length]; lia|]. split.
    { intros Hr0. apply Hreach.
      pose proof (reachable_add read_constellation sort_by_time
                    default_metadata db path (Some (track_metadata path)) Hr0)
        as Hstep'.
      by rewrite Hstep in Hstep'. }
    split.
    + intros [|i] p Hp; simpl in Hp.
      * injection Hp as <-. rewrite Hold by lia.
        rewrite Hdb1. cbn [metadata]. rewrite Z.add_0_r.
        by rewrite lookup_insert_eq.
      * rewrite <- (Hnew i p Hp). f_equal. lia.
    + intros tid Htid. rewrite Hold by (cbn [length] in Htid; lia).
      rewrite Hdb1. cbn [metadata]. apply lookup_insert_ne.
      cbn [length] in Htid. lia.
Qed.



(** X16. The application on a database made by [build_db.py]: for the
    track of the [i]-th path and a score of 5 or more the label shows the
    title made from the path, and, as [build_db.py] stores no artist,
    always "Unknown artist". *)
Theorem app_label_after_build_db paths db (i : nat) path score w :
  add_all new_db paths = Returned db →
  paths !! i = Some path →
  5 <= score →
  App.on_recognition_finished db (Some (Z.of_nat i)) score w
    = App.mkWindow
        ("Matched: " +:+ title_of path +:+ " by " +:+ "Unknown artist"
           +:+ App.newline +:+ "Score: " +:+ pretty score)
        true.
Proof.
  intros Hall Hi Hscore.
  destruct (add_all_returned new_db paths db Hall) as (_ & _ & Hnew & _).
  specialize (Hnew i path Hi). rewrite Z.add_0_l in Hnew.
  unfold App.on_recognition_finished.
  destruct (Z.ltb_spec score 5) as [|_]; [lia|].
  rewrite Hnew. cbn [default]. unfold BuildDb.track_metadata, id.
  rewrite lookup_insert_eq.
  rewrite lookup_insert_ne by done. rewrite lookup_singleton_ne by done.
  done.
Qed.

End BuildDbFacts.

Section EvaluateFacts.

Context {File Rng : Type}.
Variable read_constellation : File → option (list Peak).
Variable sort_by_time : list Peak → list Peak.
Variable default_metadata : File → gmap string string.
Variable track_metadata : File → gmap string string.
Variable sample : Rng → list File → Z → option (list File * Rng).
Variable make_query_clip : File → Rng → option (File * Rng).

Local Abbreviation build_index :=
  (EvaluateDataset.build_index read_constellation sort_by_time
     default_metadata track_metadata).
Local Abbreviation run_queries :=
  (EvaluateDataset.run_queries read_constellation sort_by_time
     make_query_clip).
Local Abbreviation choose_files := (EvaluateDataset.choose_files sample).
Local Abbreviation evaluate_main :=
  (EvaluateDataset.main read_constellation sort_by_time default_metadata
     track_metadata sample make_query_clip).

(** Every track gets an entry of its own in [expected_by_id], as the
    identifiers handed out are all different. *)
Lemma build_index_length db (expected : list (Z * File)) files db' expected' :
  build_index db expected files = Returned (db', expected') →
  (∀ k, k ∈ dict_keys expected → k < _next_track_id db) →
  length expected' = (length expected + length files)%nat.
Proof.
  revert db expected. induction files as [|f files IH]; intros db expected.
  - intros [= <- <-] _. simpl. lia.
  - cbn [EvaluateDataset.build_index].
    destruct (read_constellation f) as [peaks|] eqn:Hr.
    2: { by rewrite (add_track_raised _ _ _ _ _ _ Hr). }
    rewrite (add_track_read _ _ _ _ _ _ _ Hr).
    intros Hrest Hkeys.
    assert (Hfresh : _next_track_id db ∉ dict_keys expected).
    { intros Hin. specialize (Hkeys _ Hin). lia. }
    apply IH in Hrest.
    + rewrite Hrest. cbn [length].
      assert (length (dict_set (_next_track_id db) f expected)
              = S (length expected)) as ->; [|lia].
      pose proof (dict_keys_set (_next_track_id db) f expected) as Hk.
      rewrite decide_False in Hk by done.
      apply (f_equal length) in Hk. unfold dict_keys in Hk.
      rewrite length_app, !length_fmap in Hk. simpl in Hk. lia.
    + intros k. rewrite dict_keys_set, decide_False by done.
      cbn [_next_track_id].
      intros [Hin|Hin]%elem_of_app.
      * specialize (Hkeys _ Hin). lia.
      * apply list_elem_of_singleton in Hin. lia.
Qed.

(** The counting loop: one attempt per item, and each attempt adds at most
    one to [correct] or to [rejected], never to both. *)
Lemma run_queries_counters db min_score items rng c c' :
  run_queries db min_score items rng c = Returned c' →
  EvaluateDataset.attempts c'
    = EvaluateDataset.attempts c + Z.of_nat (length items) ∧
  EvaluateDataset.correct c <= EvaluateDataset.correct c' ∧
  EvaluateDataset.rejected c <= EvaluateDataset.rejected c' ∧
  (EvaluateDataset.correct c' - EvaluateDataset.correct c)
    + (EvaluateDataset.rejected c' - EvaluateDataset.rejected c)
    <= Z.of_nat (length items).
Proof.
  revert rng c. induction items as [|[track_id wav_path] items IH];
    intros rng c.
  - intros [= <-]. simpl. lia.
  - cbn [EvaluateDataset.run_queries].
    destruct (make_query_clip wav_path rng) as [[query rng']|]; [|done].
    destruct (recognise _ _ db query) as [[predicted score]|]; [|done].
    destruct predicted as [predicted|].
    + destruct (score <? min_score).
      * intros H%IH. cbn in H. cbn [length]. lia.
      * destruct (decide (predicted = track_id)).
        -- intros H%IH. cbn in H. cbn [length]. lia.
        -- intros H%IH. cbn in H. cbn [length]. lia.
    + intros H%IH. cbn in H. cbn [length]. lia.
Qed.

(** X17. When [evaluate_dataset.main] returns, it has made one attempt for
    each file it evaluated (all of them when there are no more than
    [max_tracks]), and its counters satisfy
    [0 ≤ correct], [0 ≤ rejected] and [correct + rejected ≤ attempts]: the
    accuracy and the rejection rate it prints add up to at most 100%. *)
Theorem evaluate_counters is_dir all_files max_tracks min_score rng c :
  evaluate_main is_dir all_files max_tracks min_score rng = Returned c →
  ∃ files rng',
    choose_files all_files max_tracks rng = Some (files, rng') ∧
    (Z.of_nat (length all_files) <= max_tracks → files = all_files) ∧
    EvaluateDataset.attempts c = Z.of_nat (length files) ∧
    0 <= EvaluateDataset.correct c ∧
    0 <= EvaluateDataset.rejected c ∧
    EvaluateDataset.correct c + EvaluateDataset.rejected c
      <= EvaluateDataset.attempts c.
Proof.
  unfold EvaluateDataset.main. destruct is_dir; [|done]. cbn [negb].
  destruct all_files as [|f fs] eqn:Hfiles; [done|]. rewrite <- Hfiles.
  destruct (choose_files all_files max_tracks rng) as [[files rng']|] eqn:Hch;
    [|done].
  destruct (build_index new_db [] files) as [[db expected]|] eqn:Hbuild;
    [|done].
  intros Hrun. exists files, rng'. split; [done|]. split.
  { intros Hle. unfold EvaluateDataset.choose_files in Hch.
    destruct (Z.gtb_spec (Z.of_nat (length all_files)) max_tracks); [lia|].
    by injection Hch as <- _. }
  apply build_index_length in Hbuild; [|intros k Hk; inversion Hk].
  apply run_queries_counters in Hrun. cbn in Hrun, Hbuild.
  rewrite Hbuild in Hrun. lia.
Qed.

End EvaluateFacts.

Section PrepareFmaFacts.

Context {File FS : Type}.
Variable dst_of : File → string.
Variable path_exists : FS → string → bool.
Variable convert_one : File → string → FS → PrepareFma.conversion * FS.

Local Abbreviation convert_all :=
  (PrepareFma.convert_all dst_of path_exists convert_one).
Local Abbreviation prepare_main :=
  (PrepareFma.main dst_of path_exists convert_one).

(** Each file adds one to exactly one of the three counters. *)
Lemma convert_all_summary skip_existing files fs s s' fs' :
  convert_all skip_existing files fs s = (Returned s', fs') →
  PrepareFma.converted s <= PrepareFma.converted s' ∧
  PrepareFma.skipped s <= PrepareFma.skipped s' ∧
  PrepareFma.failed s <= PrepareFma.failed s' ∧
  (PrepareFma.converted s' - PrepareFma.converted s)
    + (PrepareFma.skipped s' - PrepareFma.skipped s)
    + (PrepareFma.failed s' - PrepareFma.failed s)
    = Z.of_nat (length files) ∧
  (skip_existing = false → PrepareFma.skipped s' = PrepareFma.skipped s).
Proof.
  revert fs s. induction files as [|src files IH]; intros fs s.
  - intros [= <- _]. simpl. repeat split; lia.
  - cbn [PrepareFma.convert_all].
    destruct (skip_existing && path_exists fs (dst_of src)) eqn:Hskip.
    + intros (Hc & Hs & Hf & Hsum & Hsk)%IH. cbn in Hc, Hs, Hf, Hsum, Hsk.
      cbn [length]. apply andb_true_iff in Hskip as [-> _].
      split_and!; [lia | lia | lia | lia | done].
    + destruct (convert_one src (dst_of src) fs) as [[| |] fs1]; [| |done].
      * intros (Hc & Hs & Hf & Hsum & Hsk)%IH.
        cbn in Hc, Hs, Hf, Hsum, Hsk. cbn [length].
        split_and!; [lia | lia | lia | lia | done].
      * intros (Hc & Hs & Hf & Hsum & Hsk)%IH.
        cbn in Hc, Hs, Hf, Hsum, Hsk. cbn [length].
        split_and!; [lia | lia | lia | lia | done].
Qed.

(** X18. When [prepare_fma.main] returns, every file it processed (the
    first [max_files] of the files found when [max_files] is positive, all
    of them otherwise) is counted once: the counters are not negative and
    [converted + skipped + failed] is the number of files processed; and
    without [--skip-existing] nothing is skipped. *)
Theorem prepare_fma_summary is_dir has_ffmpeg mp3_files max_files
    skip_existing fs s fs' :
  prepare_main is_dir has_ffmpeg mp3_files max_files skip_existing fs
    = (Returned s, fs') →
  0 <= PrepareFma.converted s ∧ 0 <= PrepareFma.skipped s ∧
  0 <= PrepareFma.failed s ∧
  PrepareFma.converted s + PrepareFma.skipped s + PrepareFma.failed s
    = (if max_files >? 0
       then Z.min max_files (Z.of_nat (length mp3_files))
       else Z.of_nat (length mp3_files)) ∧
  (skip_existing = false → PrepareFma.skipped s = 0).
Proof.
  unfold PrepareFma.main. destruct is_dir; [|done]. cbn [negb].
  destruct has_ffmpeg; [|done]. cbn [negb].
  destruct mp3_files as [|f fs0] eqn:Hfiles; [done|]. rewrite <- Hfiles.
  intros (Hc & Hs & Hf & Hsum & Hskip)%convert_all_summary.
  cbn in Hc, Hs, Hf, Hsum, Hskip.
  split_and!; [lia | lia | lia | | done].
  destruct (Z.gtb_spec max_files 0) as [Hpos|Hle].
  - rewrite length_take in Hsum. lia.
  - lia.
Qed.

End PrepareFmaFacts.

(** * The further properties on synthetic recordings *)

Lemma int64_s6_peaks : Forall int64_peak Synthetic.s6_peaks.
Proof. repeat constructor; vm_compute; discriminate. Qed.

Lemma two_tracks_reachable :
  reachable Synthetic.read_constellation stable_sort_by_time
    Synthetic.default_metadata Synthetic.two_tracks.
Proof.
  apply (add_tracks_reachable Synthetic.read_constellation
           stable_sort_by_time Synthetic.default_metadata new_db).
  constructor.
Qed.

Lemma few_peaks_no_tokens_witness :
  sorts_by_time stable_sort_by_time ∧
  (length [mkPeak 3 40] < 2)%nat ∧
  generate_hashes_with stable_sort_by_time 10 0 200 [mkPeak 3 40] = [].
Proof.
  assert (Hlen : (length [mkPeak 3 40] < 2)%nat) by (simpl; lia).
  split; [exact stable_sort_sorts|]. split; [exact Hlen|].
  exact (few_peaks_no_tokens stable_sort_by_time 10 0 200 [mkPeak 3 40]
           stable_sort_sorts Hlen).
Defined.

Lemma token_count_bound_witness :
  sorts_by_time stable_sort_by_time ∧
  (length (generate_hashes_with stable_sort_by_time 10 0 200
             Synthetic.s6_peaks)
     ≤ 10 * length Synthetic.s6_peaks)%nat.
Proof.
  split; [exact stable_sort_sorts|].
  exact (token_count_bound stable_sort_by_time 10 0 200 Synthetic.s6_peaks
           stable_sort_sorts).
Defined.

(** The pair of the first two peaks of scenario S6. *)
Lemma hasher_emits_every_pair_witness :
  sorts_by_time stable_sort_by_time ∧
  Forall int64_peak Synthetic.s6_peaks ∧
  0 <= 0 ∧ 200 <= Int64.max_int ∧ (1 ≤ 1 ≤ 10)%nat ∧
  stable_sort_by_time Synthetic.s6_peaks !! 0%nat = Some (mkPeak 0 100) ∧
  stable_sort_by_time Synthetic.s6_peaks !! (0 + 1)%nat = Some (mkPeak 5 200) ∧
  5 - 0 <= 200 ∧
  (pack_hash 100 200 (5 - 0), 0)
    ∈ generate_hashes_with stable_sort_by_time 10 0 200 Synthetic.s6_peaks.
Proof.
  assert (H0 : (0 : Z) <= 0) by lia.
  assert (Hmax : 200 <= Int64.max_int) by (vm_compute; discriminate).
  assert (Hj : (1 ≤ 1 ≤ 10)%nat) by lia.
  assert (Hdt : 5 - 0 <= 200) by lia.
  repeat (split; [first [exact stable_sort_sorts | exact int64_s6_peaks
                        | done | reflexivity]|]).
  exact (hasher_emits_every_pair stable_sort_by_time 10 0 200
           Synthetic.s6_peaks 0 1 (mkPeak 0 100) (mkPeak 5 200)
           stable_sort_sorts int64_s6_peaks H0 Hmax Hj eq_refl eq_refl Hdt).
Defined.

Lemma reachable_ids_in_range_witness :
  reachable Synthetic.read_constellation stable_sort_by_time
    Synthetic.default_metadata Synthetic.two_tracks ∧
  ids_in_range Synthetic.two_tracks ∧
  ∀ filepath meta T,
    (Synthetic.add_track Synthetic.two_tracks filepath meta).1 = Returned T →
    metadata Synthetic.two_tracks !! T = None ∧
    ∀ h t, (T, t) ∉ default [] (hash_table Synthetic.two_tracks !! h).
Proof.
  split; [exact two_tracks_reachable|].
  exact (reachable_ids_in_range Synthetic.read_constellation
           stable_sort_by_time Synthetic.default_metadata
           Synthetic.two_tracks two_tracks_reachable).
Defined.

(** Adding [single] to [two_tracks], with a title. *)
Lemma add_track_metadata_kept_witness :
  reachable Synthetic.read_constellation stable_sort_by_time
    Synthetic.default_metadata Synthetic.two_tracks ∧
  (∀ tid, is_Some (metadata Synthetic.two_tracks !! tid) →
     metadata (Synthetic.add_track Synthetic.two_tracks Synthetic.single
                 (Some "a title")).2 !! tid
       = metadata Synthetic.two_tracks !! tid) ∧
  (∀ T, (Synthetic.add_track Synthetic.two_tracks Synthetic.single
           (Some "a title")).1 = Returned T →
     metadata (Synthetic.add_track Synthetic.two_tracks Synthetic.single
                 (Some "a title")).2 !! T = Some "a title").
Proof.
  split; [exact two_tracks_reachable|].
  exact (add_track_metadata_kept Synthetic.read_constellation
           stable_sort_by_time Synthetic.default_metadata
           Synthetic.two_tracks Synthetic.single (Some "a title")
           two_tracks_reachable).
Defined.

(** The token of [doubled] that it emits twice, at anchor time 0. *)
Lemma new_track_postings_witness :
  reachable Synthetic.read_constellation stable_sort_by_time
    Synthetic.default_metadata Synthetic.two_tracks ∧
  Synthetic.read_constellation Synthetic.doubled
    = Some Synthetic.doubled_peaks ∧
  filter (λ m : Z * Z, m.1 = 2)
    (default []
       (hash_table (Synthetic.add_track Synthetic.two_tracks
                      Synthetic.doubled None).2 !! 21000193))
    = [(2, 0); (2, 0)].
Proof.
  split; [exact two_tracks_reachable|]. split; [reflexivity|].
  exact (new_track_postings Synthetic.read_constellation stable_sort_by_time
           Synthetic.default_metadata Synthetic.two_tracks Synthetic.doubled
           None Synthetic.doubled_peaks 21000193 two_tracks_reachable eq_refl).
Defined.

Lemma recognised_has_metadata_witness :
  reachable Synthetic.read_constellation stable_sort_by_time
    Synthetic.default_metadata Synthetic.two_tracks ∧
  Synthetic.recognise Synthetic.two_tracks Synthetic.b_then_a
    = Returned (Some 1, 1) ∧
  is_Some (metadata Synthetic.two_tracks !! 1) ∧
  0 <= 1 < _next_track_id Synthetic.two_tracks.
Proof.
  split; [exact two_tracks_reachable|]. split; [reflexivity|].
  exact (recognised_has_metadata Synthetic.read_constellation
           stable_sort_by_time Synthetic.default_metadata
           Synthetic.two_tracks Synthetic.b_then_a 1 1
           two_tracks_reachable eq_refl).
Defined.

Lemma recognised_shares_token_witness :
  Synthetic.read_constellation Synthetic.b_then_a
    = Some [mkPeak 0 3; mkPeak 1 4; mkPeak 300 1; mkPeak 301 2] ∧
  Synthetic.recognise Synthetic.two_tracks Synthetic.b_then_a
    = Returned (Some 1, 1) ∧
  ∃ h t t',
    (h, t) ∈ generate_hashes stable_sort_by_time
               [mkPeak 0 3; mkPeak 1 4; mkPeak 300 1; mkPeak 301 2] ∧
    (1, t') ∈ default [] (hash_table Synthetic.two_tracks !! h).
Proof.
  split; [reflexivity|]. split; [reflexivity|].
  exact (recognised_shares_token Synthetic.read_constellation
           stable_sort_by_time Synthetic.two_tracks Synthetic.b_then_a
           [mkPeak 0 3; mkPeak 1 4; mkPeak 300 1; mkPeak 301 2] 1 1
           eq_refl eq_refl).
Defined.

Lemma score_upper_bound_witness :
  Synthetic.read_constellation Synthetic.b_then_a
    = Some [mkPeak 0 3; mkPeak 1 4; mkPeak 300 1; mkPeak 301 2] ∧
  Synthetic.recognise Synthetic.two_tracks Synthetic.b_then_a
    = Returned (Some 1, 1) ∧
  1 <= Z.of_nat (length (filter (λ x, x = 1)
         (posting_stream (hash_table Synthetic.two_tracks)
            (generate_hashes stable_sort_by_time
               [mkPeak 0 3; mkPeak 1 4; mkPeak 300 1; mkPeak 301 2])))).
Proof.
  split; [reflexivity|]. split; [reflexivity|].
  exact (score_upper_bound Synthetic.read_constellation stable_sort_by_time
           Synthetic.two_tracks Synthetic.b_then_a
           [mkPeak 0 3; mkPeak 1 4; mkPeak 300 1; mkPeak 301 2] 1 1
           eq_refl eq_refl).
Defined.

(** The clip [track_a] against the recording [b_then_a], in which its one
    token occurs 300 time bins later. *)
Lemma aligned_query_score_witness :
  Synthetic.read_constellation Synthetic.track_a
    = Some [mkPeak 0 1; mkPeak 1 2] ∧
  generate_hashes stable_sort_by_time [mkPeak 0 1; mkPeak 1 2] ≠ [] ∧
  (∀ h t, (h, t) ∈ generate_hashes stable_sort_by_time
                     [mkPeak 0 1; mkPeak 1 2] →
     ∃ t', (0, t') ∈ default []
                       (hash_table SyntheticCallers.clip_index !! h) ∧
           Int64.sub t' t = 300) ∧
  ∃ tid score,
    Synthetic.recognise SyntheticCallers.clip_index Synthetic.track_a
      = Returned (Some tid, score) ∧
    1 <= score.
Proof.
  assert (Hne : generate_hashes stable_sort_by_time [mkPeak 0 1; mkPeak 1 2]
                  ≠ []) by discriminate.
  assert (Hall : ∀ h t,
    (h, t) ∈ generate_hashes stable_sort_by_time [mkPeak 0 1; mkPeak 1 2] →
    ∃ t', (0, t') ∈ default []
                      (hash_table SyntheticCallers.clip_index !! h) ∧
          Int64.sub t' t = 300).
  { intros h t Hin. vm_compute in Hin.
    apply list_elem_of_singleton in Hin. injection Hin as -> ->.
    exists 300. split; [|reflexivity]. vm_compute. constructor. }
  split; [reflexivity|]. split; [exact Hne|]. split; [exact Hall|].
  destruct (aligned_query_score Synthetic.read_constellation
              stable_sort_by_time SyntheticCallers.clip_index
              Synthetic.track_a [mkPeak 0 1; mkPeak 1 2] 0 300
              eq_refl Hne Hall)
    as (Hcount & Hscore & tid & Hrec & Hbest).
  exists tid. eexists. split; [exact Hrec|].
  change (Z.of_nat (length (generate_hashes stable_sort_by_time
            [mkPeak 0 1; mkPeak 1 2]))) with 1 in Hcount.
  lia.
Defined.


Lemma app_label_after_build_db_witness :
  SyntheticCallers.add_all new_db SyntheticCallers.collection
    = Returned (SyntheticCallers.build_main_index) ∧
  SyntheticCallers.collection !! 1%nat = Some Synthetic.track_b ∧
  5 <= 7 ∧
  App.on_recognition_finished SyntheticCallers.build_main_index (Some 1) 7
    (App.mkWindow "Recording... please make some noise!" false)
    = App.mkWindow
        ("Matched: " +:+ "recording-2" +:+ " by " +:+ "Unknown artist"
           +:+ App.newline +:+ "Score: " +:+ "7")
        true.
Proof.
  assert (Hall : SyntheticCallers.add_all new_db SyntheticCallers.collection
                   = Returned SyntheticCallers.build_main_index)
    by reflexivity.
  assert (Hscore : 5 <= 7) by lia.
  split; [exact Hall|]. split; [reflexivity|]. split; [exact Hscore|].
  exact (app_label_after_build_db Synthetic.read_constellation
           stable_sort_by_time SyntheticCallers.default_metadata
           SyntheticCallers.title_of SyntheticCallers.rel_path_of
           SyntheticCallers.collection SyntheticCallers.build_main_index
           1 Synthetic.track_b 7
           (App.mkWindow "Recording... please make some noise!" false)
           Hall eq_refl Hscore).
Defined.

Lemma evaluate_counters_witness :
  SyntheticCallers.evaluate_main true SyntheticCallers.collection 100 5 0%nat
    = Returned (EvaluateDataset.mkCounters 2 0 2) ∧
  ∃ files rng',
    EvaluateDataset.choose_files SyntheticCallers.sample
      SyntheticCallers.collection 100 0%nat = Some (files, rng') ∧
    2 = Z.of_nat (length files) ∧
    0 + 2 <= 2.
Proof.
  assert (Hrun : SyntheticCallers.evaluate_main true
                   SyntheticCallers.collection 100 5 0%nat
                 = Returned (EvaluateDataset.mkCounters 2 0 2))
    by reflexivity.
  split; [exact Hrun|].
  destruct (evaluate_counters Synthetic.read_constellation stable_sort_by_time
              SyntheticCallers.default_metadata
              (BuildDb.track_metadata SyntheticCallers.title_of
                 SyntheticCallers.rel_path_of)
              SyntheticCallers.sample SyntheticCallers.make_query_clip
              true SyntheticCallers.collection 100 5 0%nat
              (EvaluateDataset.mkCounters 2 0 2) Hrun)
    as (files & rng' & Hch & _ & Hatt & _ & _ & Hsum).
  exists files, rng'. split; [exact Hch|]. split; [exact Hatt | exact Hsum].
Defined.

(** Three files found, the second of which does not convert, limited to
    two. *)
Lemma prepare_fma_summary_witness :
  SyntheticCallers.prepare_main true true ["a.mp3"; "bad.mp3"; "c.mp3"] 2
    false []
    = (Returned (PrepareFma.mkSummary 1 0 1), ["a.mp3.wav"]) ∧
  1 + 0 + 1 = (if 2 >? 0 then Z.min 2 (Z.of_nat 3) else Z.of_nat 3) ∧
  (false = false → 0 = 0).
Proof.
  assert (Hrun : SyntheticCallers.prepare_main true true
                   ["a.mp3"; "bad.mp3"; "c.mp3"] 2 false []
                 = (Returned (PrepareFma.mkSummary 1 0 1), ["a.mp3.wav"]))
    by reflexivity.
  split; [exact Hrun|].
  destruct (prepare_fma_summary SyntheticCallers.dst_of
              SyntheticCallers.path_exists SyntheticCallers.convert_one
              true true ["a.mp3"; "bad.mp3"; "c.mp3"] 2 false []
              (PrepareFma.mkSummary 1 0 1) ["a.mp3.wav"] Hrun)
    as (_ & _ & _ & Hsum & Hskip).
  split; [exact Hsum | exact Hskip].
Defined.
